(** * A shallow embedding of src/binary-reader-interpreter.c

    The loader that turns a WebAssembly binary into the interpreter's
    istream.  The C [Context] is a record; the callbacks are functions in a
    small state monad over it, where [None] stands for a failed [assert]
    and a [WasmResult] is returned as the C functions return it. *)

From Stdlib Require Import String ZArith List Lia Bool.
Import ListNotations.
Open Scope Z_scope.

(** ** Basic types *)

Inductive WasmResult := WASM_OK | WASM_ERROR.

Definition WASM_SUCCEEDED (r : WasmResult) : bool :=
  match r with WASM_OK => true | WASM_ERROR => false end.

Inductive WasmType :=
| WASM_TYPE_I32 | WASM_TYPE_I64 | WASM_TYPE_F32 | WASM_TYPE_F64
| WASM_TYPE_ANYFUNC | WASM_TYPE_FUNC | WASM_TYPE_VOID | WASM_TYPE_ANY.

Definition type_eqb (a b : WasmType) : bool :=
  match a, b with
  | WASM_TYPE_I32, WASM_TYPE_I32 | WASM_TYPE_I64, WASM_TYPE_I64
  | WASM_TYPE_F32, WASM_TYPE_F32 | WASM_TYPE_F64, WASM_TYPE_F64
  | WASM_TYPE_ANYFUNC, WASM_TYPE_ANYFUNC | WASM_TYPE_FUNC, WASM_TYPE_FUNC
  | WASM_TYPE_VOID, WASM_TYPE_VOID | WASM_TYPE_ANY, WASM_TYPE_ANY => true
  | _, _ => false
  end.

Inductive WasmExternalKind :=
| WASM_EXTERNAL_KIND_FUNC | WASM_EXTERNAL_KIND_TABLE
| WASM_EXTERNAL_KIND_MEMORY | WASM_EXTERNAL_KIND_GLOBAL.

Definition kind_eqb (a b : WasmExternalKind) : bool :=
  match a, b with
  | WASM_EXTERNAL_KIND_FUNC, WASM_EXTERNAL_KIND_FUNC
  | WASM_EXTERNAL_KIND_TABLE, WASM_EXTERNAL_KIND_TABLE
  | WASM_EXTERNAL_KIND_MEMORY, WASM_EXTERNAL_KIND_MEMORY
  | WASM_EXTERNAL_KIND_GLOBAL, WASM_EXTERNAL_KIND_GLOBAL => true
  | _, _ => false
  end.

(** Unsigned machine integers are [Z]s reduced modulo their width. *)
Definition u32 (z : Z) : Z := z mod 2 ^ 32.
Definition u8 (z : Z) : Z := z mod 2 ^ 8.
Definition UINT32_MAX : Z := 2 ^ 32 - 1.
Definition WASM_INVALID_OFFSET : Z := UINT32_MAX.
Definition WASM_INVALID_INDEX : Z := UINT32_MAX.

(** [emit_i8], [emit_i32] and [emit_i64] copy the value's bytes with
    [memcpy]: the istream is little-endian (spec, section 4.1). *)
Definition le_bytes (n : nat) (v : Z) : list Z :=
  map (fun i => Z.land (Z.shiftr v (8 * Z.of_nat i)) 255) (seq 0 n).

(** Opcodes the loader emits.  The numeric values are those of the
    binary format and of the interpreter-only opcodes of interpreter.h. *)
Inductive WasmOpcode :=
| WASM_OPCODE_BR | WASM_OPCODE_RETURN | WASM_OPCODE_DROP
| WASM_OPCODE_GET_LOCAL | WASM_OPCODE_SET_LOCAL | WASM_OPCODE_TEE_LOCAL
| WASM_OPCODE_ALLOCA | WASM_OPCODE_BR_UNLESS | WASM_OPCODE_CALL_HOST
| WASM_OPCODE_DATA | WASM_OPCODE_DROP_KEEP.

Definition opcode_value (op : WasmOpcode) : Z :=
  match op with
  | WASM_OPCODE_BR => 12 | WASM_OPCODE_RETURN => 15 | WASM_OPCODE_DROP => 26
  | WASM_OPCODE_GET_LOCAL => 32 | WASM_OPCODE_SET_LOCAL => 33
  | WASM_OPCODE_TEE_LOCAL => 34 | WASM_OPCODE_ALLOCA => 251
  | WASM_OPCODE_BR_UNLESS => 252 | WASM_OPCODE_CALL_HOST => 253
  | WASM_OPCODE_DATA => 254 | WASM_OPCODE_DROP_KEEP => 255
  end.

(** ** The environment (interpreter.h) *)

Record WasmLimits := { initial : Z; max : Z; has_max : bool }.

Record TypedValue := { tv_type : WasmType; tv_bits : Z }.

Record Global := { typed_value : TypedValue; mutable_ : bool }.

Record FuncSignature := { param_types : list WasmType; result_types : list WasmType }.

Record Func := { func_sig_index : Z; func_is_host : bool; func_offset : Z }.

Record Table := { table_limits : WasmLimits; func_indexes : list Z }.

Record Memory := { page_limits : WasmLimits; byte_size : Z }.

Record Export := { export_name : string; export_kind : WasmExternalKind; export_index : Z }.

Record Import := {
  module_name : string; field_name : string; import_kind : WasmExternalKind;
  import_global_type : WasmType; import_global_mutable : bool }.

Record InterpreterModule := {
  mod_is_host : bool; exports : list Export;
  table_index : Z; memory_index : Z; start_func_index : Z;
  istream_start : Z; istream_end : Z }.

Record Env := {
  sigs : list FuncSignature; funcs : list Func; globals : list Global;
  tables : list Table; memories : list Memory;
  modules : list InterpreterModule; env_istream : list Z }.

(** ** The loader's context *)

Inductive LabelType :=
| LABEL_TYPE_FUNC | LABEL_TYPE_BLOCK | LABEL_TYPE_LOOP | LABEL_TYPE_IF | LABEL_TYPE_ELSE.

Record Label := {
  label_type : LabelType; sig : list WasmType;
  type_stack_limit : Z; offset : Z; fixup_offset : Z }.

(** [cur_param_and_local_types] is [current_func->defined.param_and_local_types];
    [istream_buf] is the buffer of [istream_writer]; [host_import_global] is
    the [import_global] hook of [host_import_module]'s import delegate;
    [errors] collects the messages passed to the error handler. *)
Record Context := {
  env : Env;
  imports : list Import;
  cur_param_and_local_types : list WasmType;
  type_stack : list WasmType;
  label_stack : list Label;
  depth_fixups : list (list Z);
  istream_buf : list Z;
  istream_offset : Z;
  global_index_mapping : list Z;
  num_global_imports : Z;
  init_expr_value : TypedValue;
  is_host_import : bool;
  host_import_module : nat;
  host_import_global : Import -> Global -> WasmResult * Global;
  import_env_index : Z;
  errors : list string }.

Definition set_env (v : Env) (c : Context) : Context :=
  {| env := v; imports := imports c; cur_param_and_local_types := cur_param_and_local_types c; type_stack := type_stack c; label_stack := label_stack c; depth_fixups := depth_fixups c; istream_buf := istream_buf c; istream_offset := istream_offset c; global_index_mapping := global_index_mapping c; num_global_imports := num_global_imports c; init_expr_value := init_expr_value c; is_host_import := is_host_import c; host_import_module := host_import_module c; host_import_global := host_import_global c; import_env_index := import_env_index c; errors := errors c |}.
Definition set_imports (v : list Import) (c : Context) : Context :=
  {| env := env c; imports := v; cur_param_and_local_types := cur_param_and_local_types c; type_stack := type_stack c; label_stack := label_stack c; depth_fixups := depth_fixups c; istream_buf := istream_buf c; istream_offset := istream_offset c; global_index_mapping := global_index_mapping c; num_global_imports := num_global_imports c; init_expr_value := init_expr_value c; is_host_import := is_host_import c; host_import_module := host_import_module c; host_import_global := host_import_global c; import_env_index := import_env_index c; errors := errors c |}.
Definition set_cur_param_and_local_types (v : list WasmType) (c : Context) : Context :=
  {| env := env c; imports := imports c; cur_param_and_local_types := v; type_stack := type_stack c; label_stack := label_stack c; depth_fixups := depth_fixups c; istream_buf := istream_buf c; istream_offset := istream_offset c; global_index_mapping := global_index_mapping c; num_global_imports := num_global_imports c; init_expr_value := init_expr_value c; is_host_import := is_host_import c; host_import_module := host_import_module c; host_import_global := host_import_global c; import_env_index := import_env_index c; errors := errors c |}.
Definition set_type_stack (v : list WasmType) (c : Context) : Context :=
  {| env := env c; imports := imports c; cur_param_and_local_types := cur_param_and_local_types c; type_stack := v; label_stack := label_stack c; depth_fixups := depth_fixups c; istream_buf := istream_buf c; istream_offset := istream_offset c; global_index_mapping := global_index_mapping c; num_global_imports := num_global_imports c; init_expr_value := init_expr_value c; is_host_import := is_host_import c; host_import_module := host_import_module c; host_import_global := host_import_global c; import_env_index := import_env_index c; errors := errors c |}.
Definition set_label_stack (v : list Label) (c : Context) : Context :=
  {| env := env c; imports := imports c; cur_param_and_local_types := cur_param_and_local_types c; type_stack := type_stack c; label_stack := v; depth_fixups := depth_fixups c; istream_buf := istream_buf c; istream_offset := istream_offset c; global_index_mapping := global_index_mapping c; num_global_imports := num_global_imports c; init_expr_value := init_expr_value c; is_host_import := is_host_import c; host_import_module := host_import_module c; host_import_global := host_import_global c; import_env_index := import_env_index c; errors := errors c |}.
Definition set_depth_fixups (v : list (list Z)) (c : Context) : Context :=
  {| env := env c; imports := imports c; cur_param_and_local_types := cur_param_and_local_types c; type_stack := type_stack c; label_stack := label_stack c; depth_fixups := v; istream_buf := istream_buf c; istream_offset := istream_offset c; global_index_mapping := global_index_mapping c; num_global_imports := num_global_imports c; init_expr_value := init_expr_value c; is_host_import := is_host_import c; host_import_module := host_import_module c; host_import_global := host_import_global c; import_env_index := import_env_index c; errors := errors c |}.
Definition set_istream_buf (v : list Z) (c : Context) : Context :=
  {| env := env c; imports := imports c; cur_param_and_local_types := cur_param_and_local_types c; type_stack := type_stack c; label_stack := label_stack c; depth_fixups := depth_fixups c; istream_buf := v; istream_offset := istream_offset c; global_index_mapping := global_index_mapping c; num_global_imports := num_global_imports c; init_expr_value := init_expr_value c; is_host_import := is_host_import c; host_import_module := host_import_module c; host_import_global := host_import_global c; import_env_index := import_env_index c; errors := errors c |}.
Definition set_istream_offset (v : Z) (c : Context) : Context :=
  {| env := env c; imports := imports c; cur_param_and_local_types := cur_param_and_local_types c; type_stack := type_stack c; label_stack := label_stack c; depth_fixups := depth_fixups c; istream_buf := istream_buf c; istream_offset := v; global_index_mapping := global_index_mapping c; num_global_imports := num_global_imports c; init_expr_value := init_expr_value c; is_host_import := is_host_import c; host_import_module := host_import_module c; host_import_global := host_import_global c; import_env_index := import_env_index c; errors := errors c |}.
Definition set_global_index_mapping (v : list Z) (c : Context) : Context :=
  {| env := env c; imports := imports c; cur_param_and_local_types := cur_param_and_local_types c; type_stack := type_stack c; label_stack := label_stack c; depth_fixups := depth_fixups c; istream_buf := istream_buf c; istream_offset := istream_offset c; global_index_mapping := v; num_global_imports := num_global_imports c; init_expr_value := init_expr_value c; is_host_import := is_host_import c; host_import_module := host_import_module c; host_import_global := host_import_global c; import_env_index := import_env_index c; errors := errors c |}.
Definition set_num_global_imports (v : Z) (c : Context) : Context :=
  {| env := env c; imports := imports c; cur_param_and_local_types := cur_param_and_local_types c; type_stack := type_stack c; label_stack := label_stack c; depth_fixups := depth_fixups c; istream_buf := istream_buf c; istream_offset := istream_offset c; global_index_mapping := global_index_mapping c; num_global_imports := v; init_expr_value := init_expr_value c; is_host_import := is_host_import c; host_import_module := host_import_module c; host_import_global := host_import_global c; import_env_index := import_env_index c; errors := errors c |}.
Definition set_init_expr_value (v : TypedValue) (c : Context) : Context :=
  {| env := env c; imports := imports c; cur_param_and_local_types := cur_param_and_local_types c; type_stack := type_stack c; label_stack := label_stack c; depth_fixups := depth_fixups c; istream_buf := istream_buf c; istream_offset := istream_offset c; global_index_mapping := global_index_mapping c; num_global_imports := num_global_imports c; init_expr_value := v; is_host_import := is_host_import c; host_import_module := host_import_module c; host_import_global := host_import_global c; import_env_index := import_env_index c; errors := errors c |}.
Definition set_is_host_import (v : bool) (c : Context) : Context :=
  {| env := env c; imports := imports c; cur_param_and_local_types := cur_param_and_local_types c; type_stack := type_stack c; label_stack := label_stack c; depth_fixups := depth_fixups c; istream_buf := istream_buf c; istream_offset := istream_offset c; global_index_mapping := global_index_mapping c; num_global_imports := num_global_imports c; init_expr_value := init_expr_value c; is_host_import := v; host_import_module := host_import_module c; host_import_global := host_import_global c; import_env_index := import_env_index c; errors := errors c |}.
Definition set_host_import_module (v : nat) (c : Context) : Context :=
  {| env := env c; imports := imports c; cur_param_and_local_types := cur_param_and_local_types c; type_stack := type_stack c; label_stack := label_stack c; depth_fixups := depth_fixups c; istream_buf := istream_buf c; istream_offset := istream_offset c; global_index_mapping := global_index_mapping c; num_global_imports := num_global_imports c; init_expr_value := init_expr_value c; is_host_import := is_host_import c; host_import_module := v; host_import_global := host_import_global c; import_env_index := import_env_index c; errors := errors c |}.
Definition set_host_import_global (v : Import -> Global -> WasmResult * Global) (c : Context) : Context :=
  {| env := env c; imports := imports c; cur_param_and_local_types := cur_param_and_local_types c; type_stack := type_stack c; label_stack := label_stack c; depth_fixups := depth_fixups c; istream_buf := istream_buf c; istream_offset := istream_offset c; global_index_mapping := global_index_mapping c; num_global_imports := num_global_imports c; init_expr_value := init_expr_value c; is_host_import := is_host_import c; host_import_module := host_import_module c; host_import_global := v; import_env_index := import_env_index c; errors := errors c |}.
Definition set_import_env_index (v : Z) (c : Context) : Context :=
  {| env := env c; imports := imports c; cur_param_and_local_types := cur_param_and_local_types c; type_stack := type_stack c; label_stack := label_stack c; depth_fixups := depth_fixups c; istream_buf := istream_buf c; istream_offset := istream_offset c; global_index_mapping := global_index_mapping c; num_global_imports := num_global_imports c; init_expr_value := init_expr_value c; is_host_import := is_host_import c; host_import_module := host_import_module c; host_import_global := host_import_global c; import_env_index := v; errors := errors c |}.
Definition set_errors (v : list string) (c : Context) : Context :=
  {| env := env c; imports := imports c; cur_param_and_local_types := cur_param_and_local_types c; type_stack := type_stack c; label_stack := label_stack c; depth_fixups := depth_fixups c; istream_buf := istream_buf c; istream_offset := istream_offset c; global_index_mapping := global_index_mapping c; num_global_imports := num_global_imports c; init_expr_value := init_expr_value c; is_host_import := is_host_import c; host_import_module := host_import_module c; host_import_global := host_import_global c; import_env_index := import_env_index c; errors := v |}.

(** ** The state monad *)

Definition M (A : Type) : Type := Context -> option (A * Context).

Definition ret {A} (a : A) : M A := fun c => Some (a, c).
Definition bind {A B} (m : M A) (k : A -> M B) : M B :=
  fun c => match m c with Some (a, c') => k a c' | None => None end.
Definition get : M Context := fun c => Some (c, c).
Definition modify (f : Context -> Context) : M unit := fun c => Some (tt, f c).
(** A failed [assert] aborts the program. *)
Definition assert_fail {A} : M A := fun _ => None.

Notation "x <- m ;; k" := (bind m (fun x => k))
  (at level 61, m at next level, right associativity).
Notation "m ;; k" := (bind m (fun _ => k))
  (at level 61, right associativity).
Notation "'CHECK_RESULT' m ;; k" :=
  (bind m (fun r => match r with WASM_OK => k | WASM_ERROR => ret WASM_ERROR end))
  (at level 61, m at next level, right associativity).
Notation "'ASSERT' b ;; k" := (if b then k else assert_fail)
  (at level 61, b at next level, right associativity).

Definition print_error (msg : string) : M unit :=
  modify (fun c => set_errors (errors c ++ [msg]) c).

(** ** The istream writer *)

(** Modelled from the spec: [write_data] of the memory writer (writer.c).
    The writer is an append sink over the environment's buffer that also
    overwrites at a previously recorded offset (spec, section 4.1); writing
    past the end grows the buffer. *)
Definition write_data (buf : list Z) (offset : Z) (data : list Z) : WasmResult * list Z :=
  let o := Z.to_nat offset in
  (WASM_OK, firstn o buf ++ repeat 0 (o - length buf) ++ data ++ skipn (o + length data) buf).

Definition emit_data_at (offset : Z) (data : list Z) : M WasmResult :=
  fun c => let '(r, buf) := write_data (istream_buf c) offset data in
           Some (r, set_istream_buf buf c).

Definition emit_data (data : list Z) : M WasmResult :=
  c <- get ;;
  CHECK_RESULT emit_data_at (istream_offset c) data ;;
  modify (fun c => set_istream_offset (u32 (istream_offset c + Z.of_nat (length data))) c) ;;
  ret WASM_OK.

Definition emit_opcode (op : WasmOpcode) : M WasmResult := emit_data (le_bytes 1 (opcode_value op)).
Definition emit_i8 (v : Z) : M WasmResult := emit_data (le_bytes 1 (u8 v)).
Definition emit_i32 (v : Z) : M WasmResult := emit_data (le_bytes 4 (u32 v)).
Definition emit_i32_at (off v : Z) : M WasmResult := emit_data_at off (le_bytes 4 (u32 v)).

(** [keep] is a [uint8_t] parameter: the caller's value is truncated. *)
Definition emit_drop_keep (drop keep : Z) : M WasmResult :=
  let keep := u8 keep in
  ASSERT negb (drop =? UINT32_MAX) ;;
  ASSERT (keep <=? 1) ;;
  if 0 <? drop then
    if (drop =? 1) && (keep =? 0) then
      CHECK_RESULT emit_opcode WASM_OPCODE_DROP ;; ret WASM_OK
    else
      CHECK_RESULT emit_opcode WASM_OPCODE_DROP_KEEP ;;
      CHECK_RESULT emit_i32 drop ;;
      CHECK_RESULT emit_i8 keep ;; ret WASM_OK
  else ret WASM_OK.

(** ** Validator state: labels and the type stack *)

Fixpoint update_nth {A} (n : nat) (f : A -> A) (l : list A) : list A :=
  match l, n with
  | [], _ => []
  | x :: l', O => f x :: l'
  | x :: l', S n' => x :: update_nth n' f l'
  end.

Definition get_label (depth : Z) : M Label :=
  c <- get ;;
  ASSERT (depth <? Z.of_nat (length (label_stack c))) ;;
  match nth_error (label_stack c) (Z.to_nat depth) with
  | Some l => ret l
  | None => assert_fail
  end.

Definition top_label : M Label :=
  c <- get ;; get_label (u32 (Z.of_nat (length (label_stack c)) - 1)).

Definition top_type : M WasmType :=
  label <- top_label ;;
  c <- get ;;
  ASSERT (type_stack_limit label <? Z.of_nat (length (type_stack c))) ;;
  ret (last (type_stack c) WASM_TYPE_VOID).

Definition top_type_is_any (c : Context) : bool :=
  (length (cur_param_and_local_types c) <? length (type_stack c))%nat &&
  type_eqb (last (type_stack c) WASM_TYPE_VOID) WASM_TYPE_ANY.

(** [type_stack_limit] of the C file (a field name here). *)
Definition ctx_type_stack_limit : M Z :=
  label <- top_label ;; ret (type_stack_limit label).

Definition check_type_stack_limit (expected : Z) (desc : string) : M WasmResult :=
  c <- get ;;
  if top_type_is_any c then ret WASM_OK else
  limit <- ctx_type_stack_limit ;;
  let avail := (Z.of_nat (length (type_stack c)) - limit) mod 2 ^ 64 in
  if avail <? expected then
    print_error (String.append "type stack size too small at " desc) ;; ret WASM_ERROR
  else ret WASM_OK.

Definition check_type (expected actual : WasmType) (desc : string) : M WasmResult :=
  c <- get ;;
  if top_type_is_any c then ret WASM_OK
  else if type_eqb expected actual then ret WASM_OK
  else print_error (String.append "type mismatch in " desc) ;; ret WASM_ERROR.

Definition pop_type : M WasmType :=
  type <- top_type ;;
  (if negb (type_eqb type WASM_TYPE_ANY)
   then modify (fun c => set_type_stack (removelast (type_stack c)) c)
   else ret tt) ;;
  ret type.

Definition push_type (type : WasmType) : M unit :=
  c <- get ;;
  if top_type_is_any c then ret tt
  else if negb (type_eqb type WASM_TYPE_VOID)
  then modify (fun c => set_type_stack (type_stack c ++ [type]) c)
  else ret tt.

Definition pop_and_check_1_type (expected : WasmType) (desc : string) : M WasmResult :=
  c <- get ;;
  if top_type_is_any c then ret WASM_OK else
  r <- check_type_stack_limit 1 desc ;;
  if WASM_SUCCEEDED r then
    actual <- pop_type ;;
    CHECK_RESULT check_type expected actual desc ;;
    ret WASM_OK
  else ret WASM_ERROR.

(** ** Locals *)

(** The [CHECK_LOCAL] macro. *)
Definition check_local (local_index : Z) : M WasmResult :=
  c <- get ;;
  let max_local_index := Z.of_nat (length (cur_param_and_local_types c)) in
  if max_local_index <=? local_index then
    print_error "invalid local_index" ;; ret WASM_ERROR
  else ret WASM_OK.

Definition get_local_type_by_index (local_index : Z) : M WasmType :=
  c <- get ;;
  ASSERT (local_index <? Z.of_nat (length (cur_param_and_local_types c))) ;;
  match nth_error (cur_param_and_local_types c) (Z.to_nat local_index) with
  | Some t => ret t
  | None => assert_fail
  end.

Definition translate_local_index (local_index : Z) : M Z :=
  c <- get ;;
  ASSERT (local_index <? Z.of_nat (length (type_stack c))) ;;
  ret (u32 (Z.of_nat (length (type_stack c)) - local_index)).

Definition on_get_local_expr (local_index : Z) : M WasmResult :=
  CHECK_RESULT check_local local_index ;;
  type <- get_local_type_by_index local_index ;;
  CHECK_RESULT emit_opcode WASM_OPCODE_GET_LOCAL ;;
  idx <- translate_local_index local_index ;;
  CHECK_RESULT emit_i32 idx ;;
  push_type type ;;
  ret WASM_OK.

Definition on_set_local_expr (local_index : Z) : M WasmResult :=
  CHECK_RESULT check_local local_index ;;
  type <- get_local_type_by_index local_index ;;
  CHECK_RESULT pop_and_check_1_type type "set_local" ;;
  CHECK_RESULT emit_opcode WASM_OPCODE_SET_LOCAL ;;
  idx <- translate_local_index local_index ;;
  CHECK_RESULT emit_i32 idx ;;
  ret WASM_OK.

Definition on_tee_local_expr (local_index : Z) : M WasmResult :=
  CHECK_RESULT check_local local_index ;;
  type <- get_local_type_by_index local_index ;;
  CHECK_RESULT check_type_stack_limit 1 "tee_local" ;;
  value <- top_type ;;
  CHECK_RESULT check_type type value "tee_local" ;;
  CHECK_RESULT emit_opcode WASM_OPCODE_TEE_LOCAL ;;
  idx <- translate_local_index local_index ;;
  CHECK_RESULT emit_i32 idx ;;
  ret WASM_OK.

(** ** Branches *)

(** [append_fixup] on [ctx->depth_fixups]. *)
Definition append_fixup (index : Z) : M WasmResult :=
  c <- get ;;
  let fx := depth_fixups c in
  let fx := if Z.of_nat (length fx) <=? index
            then fx ++ repeat [] (Z.to_nat (index + 1) - length fx) else fx in
  let off := istream_offset c in
  modify (fun c => set_depth_fixups (update_nth (Z.to_nat index) (fun l => l ++ [off]) fx) c) ;;
  ret WASM_OK.

Definition emit_br_offset (depth offset : Z) : M WasmResult :=
  r <- (if offset =? WASM_INVALID_OFFSET then append_fixup depth else ret WASM_OK) ;;
  match r with
  | WASM_ERROR => ret WASM_ERROR
  | WASM_OK => CHECK_RESULT emit_i32 offset ;; ret WASM_OK
  end.

Definition get_label_br_arity (label : Label) : Z :=
  match label_type label with
  | LABEL_TYPE_LOOP => 0
  | _ => Z.of_nat (length (sig label))
  end.

Definition emit_br (depth : Z) : M WasmResult :=
  label <- get_label depth ;;
  let arity := get_label_br_arity label in
  c <- get ;;
  let size := Z.of_nat (length (type_stack c)) in
  ASSERT (u32 (type_stack_limit label + arity) <=? size) ;;
  let drop_count := u32 ((size - type_stack_limit label) - arity) in
  CHECK_RESULT emit_drop_keep drop_count arity ;;
  CHECK_RESULT emit_opcode WASM_OPCODE_BR ;;
  CHECK_RESULT emit_br_offset depth (offset label) ;;
  ret WASM_OK.

(** ** Imports *)

Definition env_set_globals (v : list Global) (e : Env) : Env :=
  {| sigs := sigs e; funcs := funcs e; globals := v; tables := tables e;
     memories := memories e; modules := modules e; env_istream := env_istream e |}.
Definition env_set_modules (v : list InterpreterModule) (e : Env) : Env :=
  {| sigs := sigs e; funcs := funcs e; globals := globals e; tables := tables e;
     memories := memories e; modules := v; env_istream := env_istream e |}.
Definition env_set_istream (v : list Z) (e : Env) : Env :=
  {| sigs := sigs e; funcs := funcs e; globals := globals e; tables := tables e;
     memories := memories e; modules := modules e; env_istream := v |}.

Definition module_add_export (x : Export) (m : InterpreterModule) : InterpreterModule :=
  {| mod_is_host := mod_is_host m; exports := exports m ++ [x];
     table_index := table_index m; memory_index := memory_index m;
     start_func_index := start_func_index m;
     istream_start := istream_start m; istream_end := istream_end m |}.

Definition check_import_kind (import : Import) (expected_kind : WasmExternalKind) : M WasmResult :=
  if negb (kind_eqb (import_kind import) expected_kind) then
    print_error "expected import to have another kind" ;; ret WASM_ERROR
  else ret WASM_OK.

Definition check_import_limits (declared_limits actual_limits : WasmLimits) : M WasmResult :=
  if initial actual_limits <? initial declared_limits then
    print_error "actual size smaller than declared" ;; ret WASM_ERROR
  else if has_max declared_limits then
    if negb (has_max actual_limits) then
      print_error "max size (unspecified) larger than declared" ;; ret WASM_ERROR
    else if max declared_limits <? max actual_limits then
      print_error "max size larger than declared" ;; ret WASM_ERROR
    else ret WASM_OK
  else ret WASM_OK.

(** [wasm_find_binding_index_by_name] on the export bindings: found when
    some export carries the name. *)
Definition append_export (module : nat) (kind : WasmExternalKind) (item_index : Z)
    (name : string) : M WasmResult :=
  c <- get ;;
  match nth_error (modules (env c)) module with
  | None => assert_fail
  | Some m =>
    if existsb (fun x => String.eqb (export_name x) name) (exports m) then
      print_error "duplicate export" ;; ret WASM_ERROR
    else
      let x := {| export_name := name; export_kind := kind; export_index := item_index |} in
      modify (fun c => set_env (env_set_modules
                 (update_nth module (module_add_export x) (modules (env c))) (env c)) c) ;;
      ret WASM_OK
  end.

(** The common tail of [on_import_global]. *)
Definition import_global_finish (global_env_index : Z) : M WasmResult :=
  modify (fun c => set_num_global_imports (num_global_imports c + 1)
            (set_global_index_mapping (global_index_mapping c ++ [global_env_index]) c)) ;;
  ret WASM_OK.

Definition import_set_global (type : WasmType) (mutable : bool) (i : Import) : Import :=
  {| module_name := module_name i; field_name := field_name i; import_kind := import_kind i;
     import_global_type := type; import_global_mutable := mutable |}.

Definition on_import_global (import_index global_index : Z) (type : WasmType)
    (mutable : bool) : M WasmResult :=
  c <- get ;;
  ASSERT (import_index <? Z.of_nat (length (imports c))) ;;
  match nth_error (imports c) (Z.to_nat import_index) with
  | None => assert_fail
  | Some import =>
    let global_env_index := u32 (Z.of_nat (length (globals (env c))) - 1) in
    if is_host_import c then
      (* wasm_append_interpreter_global returns a zeroed element *)
      let global := {| typed_value := {| tv_type := type; tv_bits := 0 |};
                       mutable_ := mutable |} in
      modify (fun c => set_env (env_set_globals (globals (env c) ++ [global]) (env c)) c) ;;
      c <- get ;;
      let '(r, global') := host_import_global c import global in
      modify (fun c => set_env (env_set_globals
                 (removelast (globals (env c)) ++ [global']) (env c)) c) ;;
      CHECK_RESULT ret r ;;
      c <- get ;;
      let global_env_index := u32 (Z.of_nat (length (globals (env c))) - 1) in
      append_export (host_import_module c) WASM_EXTERNAL_KIND_GLOBAL
                    global_env_index (field_name import) ;;
      import_global_finish global_env_index
    else
      CHECK_RESULT check_import_kind import WASM_EXTERNAL_KIND_GLOBAL ;;
      (* TODO: check type and mutability *)
      modify (fun c => set_imports (update_nth (Z.to_nat import_index)
                                     (import_set_global type mutable) (imports c)) c) ;;
      c <- get ;;
      let global_env_index := import_env_index c in
      import_global_finish global_env_index
  end.

(** ** Initializer expressions *)

Definition translate_global_index_to_env (global_index : Z) : M Z :=
  c <- get ;;
  ASSERT (global_index <? Z.of_nat (length (global_index_mapping c))) ;;
  match nth_error (global_index_mapping c) (Z.to_nat global_index) with
  | Some i => ret i
  | None => assert_fail
  end.

Definition get_global_by_env_index (global_index : Z) : M Global :=
  c <- get ;;
  ASSERT (global_index <? Z.of_nat (length (globals (env c)))) ;;
  match nth_error (globals (env c)) (Z.to_nat global_index) with
  | Some g => ret g
  | None => assert_fail
  end.

Definition get_global_by_module_index (global_index : Z) : M Global :=
  i <- translate_global_index_to_env global_index ;; get_global_by_env_index i.

Definition on_init_expr_get_global_expr (index global_index : Z) : M WasmResult :=
  c <- get ;;
  if num_global_imports c <=? global_index then
    print_error "initializer expression can only reference an imported global" ;;
    ret WASM_ERROR
  else
    ref_global <- get_global_by_module_index global_index ;;
    if mutable_ ref_global then
      print_error "initializer expression cannot reference a mutable global" ;;
      ret WASM_ERROR
    else
      modify (set_init_expr_value (typed_value ref_global)) ;;
      ret WASM_OK.

(** ** The load driver *)

Record Mark := {
  modules_size : nat; sigs_size : nat; funcs_size : nat; memories_size : nat;
  tables_size : nat; globals_size : nat; istream_size : nat }.

(** Modelled from the spec: [wasm_mark_interpreter_environment]
    (interpreter.c), a snapshot of all vector lengths plus the istream
    length (spec, section 3). *)
Definition wasm_mark_interpreter_environment (e : Env) : Mark :=
  {| modules_size := length (modules e); sigs_size := length (sigs e);
     funcs_size := length (funcs e); memories_size := length (memories e);
     tables_size := length (tables e); globals_size := length (globals e);
     istream_size := length (env_istream e) |}.

(** Modelled from the spec: [wasm_reset_interpreter_environment_to_mark]
    (interpreter.c), truncate-to-mark rollback: every vector and the
    istream are cut back to the mark's length (spec, sections 3 and 7). *)
Definition wasm_reset_interpreter_environment_to_mark (e : Env) (m : Mark) : Env :=
  {| sigs := firstn (sigs_size m) (sigs e); funcs := firstn (funcs_size m) (funcs e);
     globals := firstn (globals_size m) (globals e);
     tables := firstn (tables_size m) (tables e);
     memories := firstn (memories_size m) (memories e);
     modules := firstn (modules_size m) (modules e);
     env_istream := firstn (istream_size m) (env_istream e) |}.

(** Modelled from the spec: [wasm_init_mem_writer_existing] (writer.c).
    The istream writer is a sink over the environment's buffer (spec,
    section 4.1): the writer takes the buffer over and the environment's
    buffer is cleared until [wasm_steal_mem_writer_output_buffer] hands it
    back. *)
Definition wasm_init_mem_writer_existing (e : Env) : WasmResult * list Z * Env :=
  (WASM_OK, env_istream e, env_set_istream [] e).

(** [wasm_append_interpreter_module] followed by the field assignments of
    the driver. *)
Definition new_module (start : Z) : InterpreterModule :=
  {| mod_is_host := false; exports := []; table_index := WASM_INVALID_INDEX;
     memory_index := WASM_INVALID_INDEX; start_func_index := WASM_INVALID_INDEX;
     istream_start := start; istream_end := 0 |}.

Definition module_set_istream_end (v : Z) (m : InterpreterModule) : InterpreterModule :=
  {| mod_is_host := mod_is_host m; exports := exports m;
     table_index := table_index m; memory_index := memory_index m;
     start_func_index := start_func_index m;
     istream_start := istream_start m; istream_end := v |}.

(** [WASM_ZERO_MEMORY(ctx)] and the assignments that follow it. *)
Definition initial_context (e : Env) (module : nat) : Context :=
  {| env := e; imports := []; cur_param_and_local_types := []; type_stack := [];
     label_stack := []; depth_fixups := []; istream_buf := [];
     istream_offset := Z.of_nat (length (env_istream e));
     global_index_mapping := []; num_global_imports := 0;
     init_expr_value := {| tv_type := WASM_TYPE_ANY; tv_bits := 0 |};
     is_host_import := false; host_import_module := O;
     host_import_global := fun _ g => (WASM_ERROR, g);
     import_env_index := 0; errors := [] |}.

Section Loader.

(** The external decoder [wasm_read_binary] driving the callbacks of
    [s_binary_reader] (first pass) and of [s_binary_reader_segments]
    (second pass) over the same bytes. *)
Variable read_binary : Context -> WasmResult * Context.
Variable read_binary_segments : Context -> WasmResult * Context.

(** [out_module] is the caller's value of [*out_module]; the result is
    [None] when an [assert] fails.  A module is named by its index in
    [env->modules]. *)
Definition wasm_read_binary_interpreter (e : Env) (out_module : option nat)
    : option (WasmResult * Env * option nat) :=
  let mark := wasm_mark_interpreter_environment e in
  let module := length (modules e) in
  let e := env_set_modules
             (modules e ++ [new_module (Z.of_nat (length (env_istream e)))]) e in
  let ctx := initial_context e module in
  let '(r, buf, e) := wasm_init_mem_writer_existing (env ctx) in
  match r with
  | WASM_ERROR => Some (WASM_ERROR, e, out_module)
  | WASM_OK =>
    let ctx := set_istream_buf buf (set_env e ctx) in
    let '(result, ctx) := read_binary ctx in
    (* wasm_steal_mem_writer_output_buffer *)
    let ctx := set_istream_buf [] (set_env (env_set_istream (istream_buf ctx) (env ctx)) ctx) in
    if WASM_SUCCEEDED result then
      let '(result, ctx) := read_binary_segments ctx in
      if WASM_SUCCEEDED result then
        let e := env ctx in
        let e := env_set_istream (firstn (Z.to_nat (istream_offset ctx)) (env_istream e)) e in
        let e := env_set_modules (update_nth module
                   (module_set_istream_end (Z.of_nat (length (env_istream e)))) (modules e)) e in
        Some (result, e, Some module)
      else None
    else
      Some (result, wasm_reset_interpreter_environment_to_mark (env ctx) mark, None)
  end.

End Loader.

(** ** More of the validator: type-stack helpers *)

(** [ctx->type_stack.size = n]: the loader only lowers the size this way
    (the stack never sinks below the top label's limit); a size above the
    data would expose stale entries, which the model does not follow and
    treats as an abort. *)
Definition set_type_stack_size (n : Z) : M unit :=
  c <- get ;;
  ASSERT (Z.to_nat n <=? length (type_stack c))%nat ;;
  modify (fun c => set_type_stack (firstn (Z.to_nat n) (type_stack c)) c).

Definition check_type_stack_limit_exact (expected : Z) (desc : string) : M WasmResult :=
  c <- get ;;
  if top_type_is_any c then ret WASM_OK else
  limit <- ctx_type_stack_limit ;;
  let avail := (Z.of_nat (length (type_stack c)) - limit) mod 2 ^ 64 in
  if negb (expected =? avail) then
    print_error (String.append "type stack at end of " desc) ;; ret WASM_ERROR
  else ret WASM_OK.

Definition reset_type_stack_to_limit : M unit :=
  limit <- ctx_type_stack_limit ;; set_type_stack_size limit.

(** The loop of [check_n_types] from its [i]-th iteration ([fuel] of them
    left): the stack slot [size - n + i] against [expected[n - i - 1]].  A
    slot outside the stack is an out-of-bounds read, modelled as an abort. *)
Fixpoint check_n_types_loop (expected : list WasmType) (desc : string) (i fuel : nat)
    : M WasmResult :=
  match fuel with
  | O => ret WASM_OK
  | S fuel =>
    c <- get ;;
    let n := length expected in
    let pos := Z.of_nat (length (type_stack c)) - Z.of_nat n + Z.of_nat i in
    ASSERT (0 <=? pos) ;;
    match nth_error (type_stack c) (Z.to_nat pos), nth_error expected (n - i - 1)%nat with
    | Some actual, Some e =>
      CHECK_RESULT check_type e actual desc ;;
      check_n_types_loop expected desc (S i) fuel
    | _, _ => assert_fail
    end
  end.

Definition check_n_types (expected : list WasmType) (desc : string) : M WasmResult :=
  c <- get ;;
  if top_type_is_any c then ret WASM_OK else
  CHECK_RESULT check_type_stack_limit (Z.of_nat (length expected)) desc ;;
  check_n_types_loop expected desc 0 (length expected).

(** The loop of [push_types]. *)
Fixpoint push_types_loop (types : list WasmType) : M unit :=
  match types with
  | [] => ret tt
  | t :: ts => push_type t ;; push_types_loop ts
  end.

Definition push_types (types : list WasmType) : M unit :=
  c <- get ;;
  if top_type_is_any c then ret tt else push_types_loop types.

Definition pop_and_check_2_types (expected1 expected2 : WasmType) (desc : string)
    : M WasmResult :=
  c <- get ;;
  if top_type_is_any c then ret WASM_OK else
  r <- check_type_stack_limit 2 desc ;;
  if WASM_SUCCEEDED r then
    actual2 <- pop_type ;;
    actual1 <- pop_type ;;
    CHECK_RESULT check_type expected1 actual1 desc ;;
    CHECK_RESULT check_type expected2 actual2 desc ;;
    ret WASM_OK
  else ret WASM_ERROR.

Definition drop_types_for_return (arity : Z) : M WasmResult :=
  c <- get ;;
  if top_type_is_any c then ret WASM_OK else
  let size := Z.of_nat (length (type_stack c)) in
  if arity <=? size then
    CHECK_RESULT emit_drop_keep (u32 (size - arity)) arity ;; ret WASM_OK
  else
    ASSERT (size =? 0) ;; ret WASM_OK.

(** ** More of the validator: labels and fixups *)

Definition translate_depth (depth : Z) : M Z :=
  c <- get ;;
  ASSERT (depth <? Z.of_nat (length (label_stack c))) ;;
  ret (u32 (Z.of_nat (length (label_stack c)) - 1 - depth)).

(** The [CHECK_DEPTH] macro. *)
Definition check_depth (depth : Z) : M WasmResult :=
  c <- get ;;
  if Z.of_nat (length (label_stack c)) <=? depth then
    print_error "invalid depth" ;; ret WASM_ERROR
  else ret WASM_OK.

Definition push_label (label_type : LabelType) (sig : list WasmType)
    (offset fixup_offset : Z) : M unit :=
  modify (fun c => set_label_stack (label_stack c ++
            [{| label_type := label_type; sig := sig;
                type_stack_limit := u32 (Z.of_nat (length (type_stack c)));
                offset := offset; fixup_offset := fixup_offset |}]) c).

Definition pop_label : M unit :=
  _ <- top_label ;;
  modify (fun c => set_label_stack (removelast (label_stack c)) c) ;;
  c <- get ;;
  if (length (label_stack c) <? length (depth_fixups c))%nat then
    modify (fun c => set_depth_fixups (firstn (length (label_stack c)) (depth_fixups c)) c)
  else ret tt.

(** The loop of [fixup_top_label]. *)
Fixpoint emit_i32_at_all (fixups : list Z) (value : Z) : M WasmResult :=
  match fixups with
  | [] => ret WASM_OK
  | f :: fs => CHECK_RESULT emit_i32_at f value ;; emit_i32_at_all fs value
  end.

Definition fixup_top_label (offset : Z) : M WasmResult :=
  c <- get ;;
  let top := u32 (Z.of_nat (length (label_stack c)) - 1) in
  if Z.of_nat (length (depth_fixups c)) <=? top then ret WASM_OK else
  match nth_error (depth_fixups c) (Z.to_nat top) with
  | None => assert_fail
  | Some fixups =>
    CHECK_RESULT emit_i32_at_all fixups offset ;;
    modify (fun c => set_depth_fixups
              (update_nth (Z.to_nat top) (fun _ => []) (depth_fixups c)) c) ;;
    ret WASM_OK
  end.

Definition emit_br_table_offset (depth : Z) : M WasmResult :=
  label <- get_label depth ;;
  let arity := get_label_br_arity label in
  c <- get ;;
  let size := Z.of_nat (length (type_stack c)) in
  ASSERT (u32 (type_stack_limit label + arity) <=? size) ;;
  let drop_count := u32 ((size - type_stack_limit label) - arity) in
  CHECK_RESULT emit_br_offset depth (offset label) ;;
  CHECK_RESULT emit_i32 drop_count ;;
  CHECK_RESULT emit_i8 arity ;;
  ret WASM_OK.

(** ** More of the validator: block structure and branches *)

(** [label] is a pointer to the top label; writes through it update the
    last element of the label stack. *)
Definition update_top_label (f : Label -> Label) : M unit :=
  modify (fun c => set_label_stack
            (update_nth (length (label_stack c) - 1) f (label_stack c)) c).

Definition label_set_type (v : LabelType) (l : Label) : Label :=
  {| label_type := v; sig := sig l; type_stack_limit := type_stack_limit l;
     offset := offset l; fixup_offset := fixup_offset l |}.

Definition label_set_fixup_offset (v : Z) (l : Label) : Label :=
  {| label_type := label_type l; sig := sig l; type_stack_limit := type_stack_limit l;
     offset := offset l; fixup_offset := v |}.

(** [num_types] and [sig_types] are the list [sig]. *)
Definition on_block_expr (sig : list WasmType) : M WasmResult :=
  push_label LABEL_TYPE_BLOCK sig WASM_INVALID_OFFSET WASM_INVALID_OFFSET ;;
  ret WASM_OK.

Definition on_loop_expr (sig : list WasmType) : M WasmResult :=
  c <- get ;;
  push_label LABEL_TYPE_LOOP sig (istream_offset c) WASM_INVALID_OFFSET ;;
  ret WASM_OK.

Definition on_if_expr (sig : list WasmType) : M WasmResult :=
  CHECK_RESULT check_type_stack_limit 1 "if" ;;
  CHECK_RESULT pop_and_check_1_type WASM_TYPE_I32 "if" ;;
  CHECK_RESULT emit_opcode WASM_OPCODE_BR_UNLESS ;;
  c <- get ;;
  let fixup_offset := istream_offset c in
  CHECK_RESULT emit_i32 WASM_INVALID_OFFSET ;;
  push_label LABEL_TYPE_IF sig WASM_INVALID_OFFSET fixup_offset ;;
  ret WASM_OK.

(** [top_label] never returns null: the [!label] tests are dead. *)
Definition on_else_expr : M WasmResult :=
  label <- top_label ;;
  match label_type label with
  | LABEL_TYPE_IF =>
    CHECK_RESULT check_n_types (sig label) "if true branch" ;;
    update_top_label (label_set_type LABEL_TYPE_ELSE) ;;
    let fixup_cond_offset := fixup_offset label in
    CHECK_RESULT emit_opcode WASM_OPCODE_BR ;;
    c <- get ;;
    update_top_label (label_set_fixup_offset (istream_offset c)) ;;
    CHECK_RESULT emit_i32 WASM_INVALID_OFFSET ;;
    c <- get ;;
    CHECK_RESULT emit_i32_at fixup_cond_offset (istream_offset c) ;;
    set_type_stack_size (type_stack_limit label) ;;
    ret WASM_OK
  | _ => print_error "unexpected else operator" ;; ret WASM_ERROR
  end.

(** The part of [on_end_expr] after the [switch]; the result of
    [fixup_top_label] is ignored. *)
Definition end_label (label : Label) (desc : string) : M WasmResult :=
  CHECK_RESULT check_n_types (sig label) desc ;;
  CHECK_RESULT check_type_stack_limit_exact (Z.of_nat (length (sig label))) desc ;;
  c <- get ;;
  fixup_top_label (istream_offset c) ;;
  reset_type_stack_to_limit ;;
  push_types (sig label) ;;
  pop_label ;;
  ret WASM_OK.

Definition on_end_expr : M WasmResult :=
  label <- top_label ;;
  match label_type label with
  | LABEL_TYPE_IF =>
    c <- get ;;
    CHECK_RESULT emit_i32_at (fixup_offset label) (istream_offset c) ;;
    end_label label "if true branch"
  | LABEL_TYPE_ELSE =>
    c <- get ;;
    CHECK_RESULT emit_i32_at (fixup_offset label) (istream_offset c) ;;
    end_label label "if false branch"
  | LABEL_TYPE_BLOCK => end_label label "block"
  | LABEL_TYPE_LOOP => end_label label "loop"
  | LABEL_TYPE_FUNC => print_error "unexpected end operator" ;; ret WASM_ERROR
  end.

Definition on_br_expr (depth : Z) : M WasmResult :=
  CHECK_RESULT check_depth depth ;;
  depth <- translate_depth depth ;;
  label <- get_label depth ;;
  CHECK_RESULT (match label_type label with
                | LABEL_TYPE_LOOP => ret WASM_OK
                | _ => check_n_types (sig label) "br"
                end) ;;
  CHECK_RESULT emit_br depth ;;
  reset_type_stack_to_limit ;;
  push_type WASM_TYPE_ANY ;;
  ret WASM_OK.

Definition on_br_if_expr (depth : Z) : M WasmResult :=
  CHECK_RESULT check_depth depth ;;
  depth <- translate_depth depth ;;
  CHECK_RESULT pop_and_check_1_type WASM_TYPE_I32 "br_if" ;;
  label <- get_label depth ;;
  CHECK_RESULT (match label_type label with
                | LABEL_TYPE_LOOP => ret WASM_OK
                | _ => check_n_types (sig label) "br_if"
                end) ;;
  CHECK_RESULT emit_opcode WASM_OPCODE_BR_UNLESS ;;
  c <- get ;;
  let fixup_br_offset := istream_offset c in
  CHECK_RESULT emit_i32 WASM_INVALID_OFFSET ;;
  CHECK_RESULT emit_br depth ;;
  c <- get ;;
  CHECK_RESULT emit_i32_at fixup_br_offset (istream_offset c) ;;
  ret WASM_OK.

Definition on_drop_expr : M WasmResult :=
  CHECK_RESULT check_type_stack_limit 1 "drop" ;;
  CHECK_RESULT emit_opcode WASM_OPCODE_DROP ;;
  pop_type ;;
  ret WASM_OK.

(** ** Memory operands and data segments *)

Definition check_align (alignment_log2 natural_alignment : Z) : M WasmResult :=
  if (32 <=? alignment_log2) || (natural_alignment <? Z.shiftl 1 alignment_log2) then
    print_error "alignment must not be larger than natural alignment" ;; ret WASM_ERROR
  else ret WASM_OK.

(** [module] is [ctx->module], by its index in [env->modules]; the
    [memories] element is read without a bounds check, an out-of-range one
    is modelled as an abort.  [value.i32] is the low 32 bits of the typed
    value. *)
Definition on_data_segment_data_check (module : nat) (size : Z) : M WasmResult :=
  c <- get ;;
  match nth_error (modules (env c)) module with
  | None => assert_fail
  | Some m =>
    ASSERT negb (memory_index m =? WASM_INVALID_INDEX) ;;
    match nth_error (memories (env c)) (Z.to_nat (memory_index m)) with
    | None => assert_fail
    | Some memory =>
      if negb (type_eqb (tv_type (init_expr_value c)) WASM_TYPE_I32) then
        print_error "type mismatch in data segment" ;; ret WASM_ERROR
      else
        let address := u32 (tv_bits (init_expr_value c)) in
        let end_address := address + size in
        if byte_size memory <? end_address then
          print_error "data segment is out of bounds" ;; ret WASM_ERROR
        else ret WASM_OK
    end
  end.

(** ** Reading of the spec used by the statements *)

(** The bytes of the spec's drop/keep sequence: nothing when nothing is
    dropped, a single [DROP] for one value without a kept result, and
    [DROP_KEEP drop:u32 keep:u8] otherwise. *)
Definition drop_keep_bytes (drop keep : Z) : list Z :=
  if drop =? 0 then []
  else if (drop =? 1) && (keep =? 0) then [opcode_value WASM_OPCODE_DROP]
  else [opcode_value WASM_OPCODE_DROP_KEEP] ++ le_bytes 4 drop ++ le_bytes 1 keep.

(** The context after [data] has been appended at the end of the istream. *)
Definition emitted (c : Context) (data : list Z) : Context :=
  set_istream_offset (istream_offset c + Z.of_nat (length data))
    (set_istream_buf (istream_buf c ++ data) c).

(** The writer's offset is the end of its buffer. *)
Definition istream_at_end (c : Context) : Prop :=
  istream_offset c = Z.of_nat (length (istream_buf c)).

(** ** Concrete loader states *)


Definition host_module : InterpreterModule :=
  {| mod_is_host := true; exports := []; table_index := WASM_INVALID_INDEX;
     memory_index := WASM_INVALID_INDEX; start_func_index := WASM_INVALID_INDEX;
     istream_start := 0; istream_end := 0 |}.

(** An immutable i32 global exported by a registered (non-host) module. *)
Definition exported_global : Global :=
  {| typed_value := {| tv_type := WASM_TYPE_I32; tv_bits := 42 |}; mutable_ := false |}.

(** The import [(import "m" "g" (global ...))] as [on_import] leaves it. *)
Definition global_import : Import :=
  {| module_name := "m"; field_name := "g"; import_kind := WASM_EXTERNAL_KIND_GLOBAL;
     import_global_type := WASM_TYPE_ANY; import_global_mutable := false |}.

(** Importing a global from a host module whose delegate accepts it. *)
Definition ctx_host_import : Context :=
  {| env := {| sigs := []; funcs := []; globals := [exported_global]; tables := [];
               memories := []; modules := [host_module]; env_istream := [] |};
     imports := [global_import]; cur_param_and_local_types := []; type_stack := [];
     label_stack := []; depth_fixups := []; istream_buf := []; istream_offset := 0;
     global_index_mapping := []; num_global_imports := 0;
     init_expr_value := {| tv_type := WASM_TYPE_ANY; tv_bits := 0 |};
     is_host_import := true; host_import_module := O;
     host_import_global := fun _ g => (WASM_OK, g);
     import_env_index := 0; errors := [] |}.

(** Importing the global of a registered module, whose export is
    [exported_global] at environment index 0. *)
Definition ctx_module_import : Context :=
  set_is_host_import false ctx_host_import.

(** The init-expr state after one imported global, [exported_global]. *)
Definition ctx_init_expr : Context :=
  set_num_global_imports 1 (set_global_index_mapping [0] ctx_module_import).

(** Inside a block whose signature is [i32], three i32 values above its
    floor 0. *)
Definition block_label : Label :=
  {| label_type := LABEL_TYPE_BLOCK; sig := [WASM_TYPE_I32]; type_stack_limit := 0;
     offset := WASM_INVALID_OFFSET; fixup_offset := WASM_INVALID_OFFSET |}.

Definition ctx_branch : Context :=
  set_label_stack [block_label]
    (set_type_stack [WASM_TYPE_I32; WASM_TYPE_I32; WASM_TYPE_I32] ctx_module_import).


(** A first decoder pass that appends a global and two istream bytes and
    then reports an error. *)
Definition failing_pass (c : Context) : WasmResult * Context :=
  (WASM_ERROR,
   set_istream_buf (istream_buf c ++ [1; 2])
     (set_env (env_set_globals (globals (env c) ++ [exported_global]) (env c)) c)).

(** The lengths of every vector of the environment do not shrink. *)
Definition env_grows (e e' : Env) : Prop :=
  (length (sigs e) <= length (sigs e') /\ length (funcs e) <= length (funcs e') /\
   length (globals e) <= length (globals e') /\ length (tables e) <= length (tables e') /\
   length (memories e) <= length (memories e') /\
   length (modules e) <= length (modules e'))%nat.




(** Unreachable code in a block: the "any" marker above the floor. *)
Definition ctx_any : Context :=
  set_type_stack [WASM_TYPE_ANY] ctx_branch.

(** An empty block opened in that unreachable code: its floor lies above
    the "any" marker. *)
Definition inner_label : Label :=
  {| label_type := LABEL_TYPE_BLOCK; sig := []; type_stack_limit := 1;
     offset := WASM_INVALID_OFFSET; fixup_offset := WASM_INVALID_OFFSET |}.

Definition ctx_any_block : Context :=
  set_label_stack [block_label; inner_label] ctx_any.

(** A function with two [i32] locals, its frame on the type stack. *)
Definition ctx_locals : Context :=
  set_cur_param_and_local_types [WASM_TYPE_I32; WASM_TYPE_I32] ctx_branch.

(** Frame conditions: a computation that succeeds from [c] with the final
    state [c'] relates them by [R]. *)
Definition preserves {A} (R : Context -> Context -> Prop) (m : M A) : Prop :=
  forall c x c', m c = Some (x, c') -> R c c'.

(** The istream is untouched and the type stack does not grow. *)
Definition stream_kept (c c' : Context) : Prop :=
  istream_buf c' = istream_buf c /\ istream_offset c' = istream_offset c /\
  (length (type_stack c') <= length (type_stack c))%nat.

(** Two 4-byte slots of the istream do not overlap. *)
Definition slot_disjoint (a b : Z) : Prop := a + 4 <= b \/ b + 4 <= a.

(** The label [on_if_expr] pushes. *)
Definition if_label (s : list WasmType) (limit fixup : Z) : Label :=
  {| label_type := LABEL_TYPE_IF; sig := s; type_stack_limit := limit;
     offset := WASM_INVALID_OFFSET; fixup_offset := fixup |}.

(** The type stack, the label stack and the parameter and local types
    are untouched. *)
Definition stack_kept (c c' : Context) : Prop :=
  type_stack c' = type_stack c /\ label_stack c' = label_stack c /\
  cur_param_and_local_types c' = cur_param_and_local_types c.

(** [ctx_branch] with six istream bytes and, for its one label, a
    recorded branch placeholder at offset 1. *)
Definition ctx_fixup : Context :=
  set_depth_fixups [[1]] (set_istream_offset 6 (set_istream_buf [0; 1; 2; 3; 4; 5] ctx_branch)).

(** * Proofs *)

Ltac concrete :=
  first [ reflexivity
        | solve [unfold UINT32_MAX, istream_at_end, get_label_br_arity in *; cbn; lia]
        | vm_compute; first [reflexivity | discriminate | intros; discriminate | lia] ].

Lemma bind_some {A B} (m : M A) (k : A -> M B) c a c' :
  m c = Some (a, c') -> bind m k c = k a c'.
Proof. unfold bind. intros ->. reflexivity. Qed.

Lemma u32_small z : 0 <= z < 2 ^ 32 -> u32 z = z.
Proof. intros. unfold u32. apply Z.mod_small. lia. Qed.

Lemma u8_small z : 0 <= z < 2 ^ 8 -> u8 z = z.
Proof. intros. unfold u8. apply Z.mod_small. lia. Qed.

Lemma le_bytes_length n v : length (le_bytes n v) = n.
Proof. unfold le_bytes. rewrite length_map, length_seq. reflexivity. Qed.

Lemma emit_data_ok c data :
  istream_at_end c -> istream_offset c + Z.of_nat (length data) < 2 ^ 32 ->
  emit_data data c = Some (WASM_OK, emitted c data).
Proof.
  unfold istream_at_end. intros Hend Hlt.
  unfold emit_data, emit_data_at, write_data, bind, get, modify, ret. cbn.
  rewrite Hend, Nat2Z.id, firstn_all, Nat.sub_diag, skipn_all2 by lia.
  cbn. rewrite app_nil_r. unfold emitted. f_equal. f_equal.
  unfold set_istream_offset, set_istream_buf. cbn. f_equal.
  rewrite Hend. apply u32_small. lia.
Qed.

Lemma emitted_at_end c data : istream_at_end c -> istream_at_end (emitted c data).
Proof.
  unfold istream_at_end, emitted. cbn. intros ->. rewrite length_app. lia.
Qed.

Lemma emitted_emitted c d1 d2 : emitted (emitted c d1) d2 = emitted c (d1 ++ d2).
Proof.
  unfold emitted, set_istream_offset, set_istream_buf. cbn.
  rewrite app_assoc, length_app. f_equal. lia.
Qed.

Lemma emitted_offset c d : istream_offset (emitted c d) = istream_offset c + Z.of_nat (length d).
Proof. reflexivity. Qed.

Lemma emitted_buf c d : istream_buf (emitted c d) = istream_buf c ++ d.
Proof. reflexivity. Qed.

Lemma emitted_nil c : istream_at_end c -> emitted c [] = c.
Proof.
  unfold istream_at_end, emitted, set_istream_offset, set_istream_buf. intros H.
  destruct c; cbn in *. rewrite app_nil_r. f_equal. lia.
Qed.

(** The drop/keep emitter appends exactly [drop_keep_bytes]. *)
Lemma emit_drop_keep_ok c drop keep :
  istream_at_end c -> istream_offset c + 6 < 2 ^ 32 ->
  0 <= drop < UINT32_MAX -> 0 <= keep <= 1 ->
  emit_drop_keep drop keep c = Some (WASM_OK, emitted c (drop_keep_bytes drop keep)).
Proof.
  intros Hend Hlt Hd Hk. unfold UINT32_MAX in Hd.
  unfold emit_drop_keep. rewrite u8_small by lia.
  replace (drop =? UINT32_MAX) with false
    by (symmetry; apply Z.eqb_neq; unfold UINT32_MAX; lia).
  replace (keep <=? 1) with true by (symmetry; apply Z.leb_le; lia).
  cbn [negb]. unfold drop_keep_bytes.
  destruct (Z.eqb_spec drop 0) as [->|Hd0].
  - cbn. rewrite emitted_nil; auto.
  - replace (0 <? drop) with true by (symmetry; apply Z.ltb_lt; lia).
    unfold emit_opcode, emit_i32, emit_i8.
    rewrite u32_small, u8_small by (unfold UINT32_MAX; lia).
    destruct ((drop =? 1) && (keep =? 0)).
    + rewrite (bind_some _ _ _ _ _
                 (emit_data_ok c (le_bytes 1 (opcode_value WASM_OPCODE_DROP)) Hend
                    ltac:(cbn; lia))).
      reflexivity.
    + set (d1 := le_bytes 1 (opcode_value WASM_OPCODE_DROP_KEEP)).
      set (d2 := le_bytes 4 drop). set (d3 := le_bytes 1 keep).
      assert (L1 : length d1 = 1%nat) by apply le_bytes_length.
      assert (L2 : length d2 = 4%nat) by apply le_bytes_length.
      assert (L3 : length d3 = 1%nat) by apply le_bytes_length.
      pose proof (emitted_at_end c d1 Hend) as E1.
      pose proof (emitted_at_end _ d2 E1) as E2.
      rewrite (bind_some _ _ _ _ _ (emit_data_ok c d1 Hend ltac:(rewrite L1; lia))).
      cbv beta iota.
      rewrite (bind_some _ _ _ _ _ (emit_data_ok (emitted c d1) d2 E1
                 ltac:(rewrite emitted_offset, L1, L2; lia))).
      cbv beta iota.
      rewrite (bind_some _ _ _ _ _ (emit_data_ok (emitted (emitted c d1) d2) d3 E2
                 ltac:(rewrite !emitted_offset, L1, L2, L3; lia))).
      cbn. rewrite !emitted_emitted. reflexivity.
Qed.

Lemma emit_br_offset_ok c depth off :
  istream_at_end c -> istream_offset c + 4 < 2 ^ 32 ->
  exists c', emit_br_offset depth off c = Some (WASM_OK, c') /\
    istream_buf c' = istream_buf c ++ le_bytes 4 (u32 off) /\ istream_at_end c'.
Proof.
  intros Hend Hlt. unfold emit_br_offset, emit_i32.
  destruct (off =? WASM_INVALID_OFFSET).
  - assert (A : exists fx, append_fixup depth c = Some (WASM_OK, set_depth_fixups fx c))
      by (unfold append_fixup, bind, get, modify, ret; cbn; eexists; reflexivity).
    destruct A as [fx A]. set (c1 := set_depth_fixups fx c) in A.
    rewrite (bind_some _ _ _ _ _ A). cbv beta iota.
    assert (E : istream_at_end c1) by exact Hend.
    rewrite (bind_some _ _ _ _ _ (emit_data_ok c1 (le_bytes 4 (u32 off)) E
               ltac:(rewrite le_bytes_length; cbn; unfold c1; cbn; lia))).
    eexists. split; [reflexivity|]. split; [reflexivity|]. apply emitted_at_end, E.
  - rewrite (bind_some (ret WASM_OK) _ c WASM_OK c eq_refl). cbv beta iota.
    rewrite (bind_some _ _ _ _ _ (emit_data_ok c (le_bytes 4 (u32 off)) Hend
               ltac:(rewrite le_bytes_length; cbn; lia))).
    eexists. split; [reflexivity|]. split; [reflexivity|]. apply emitted_at_end, Hend.
Qed.

(** C9: with [drop <> UINT32_MAX] and [keep <= 1], [emit_drop_keep] emits
    nothing when [drop = 0], a single [DROP] opcode byte when [drop = 1] and
    [keep = 0], and otherwise a [DROP_KEEP] opcode followed by the 32-bit
    drop count and the 8-bit keep count. *)
Theorem emit_drop_keep_cases (c : Context) (drop keep : Z) :
  istream_at_end c -> istream_offset c + 6 < 2 ^ 32 ->
  0 <= drop < UINT32_MAX -> 0 <= keep <= 1 ->
  (drop = 0 -> emit_drop_keep drop keep c = Some (WASM_OK, c)) /\
  (drop = 1 -> keep = 0 ->
     emit_drop_keep drop keep c = Some (WASM_OK, emitted c [opcode_value WASM_OPCODE_DROP])) /\
  (drop <> 0 -> ~ (drop = 1 /\ keep = 0) ->
     emit_drop_keep drop keep c =
       Some (WASM_OK, emitted c ([opcode_value WASM_OPCODE_DROP_KEEP] ++
                                 le_bytes 4 drop ++ le_bytes 1 keep))).
Proof.
  intros Hend Hlt Hd Hk.
  rewrite (emit_drop_keep_ok c drop keep Hend Hlt Hd Hk).
  unfold drop_keep_bytes. split; [|split].
  - intros ->. cbn. rewrite emitted_nil; auto.
  - intros -> ->. reflexivity.
  - intros H0 H1.
    destruct (Z.eqb_spec drop 0); [contradiction|].
    destruct (Z.eqb_spec drop 1), (Z.eqb_spec keep 0); try tauto; reflexivity.
Qed.

(** C6: the branch arity of a frame is 0 for a Loop and the size of its
    signature otherwise, and [emit_br] emits the drop/keep sequence that
    drops [(type_stack.size - frame.floor) - arity] values and keeps [arity]
    values, followed by [BR] and the frame's offset. *)
Theorem emit_br_arity_drop_keep (c : Context) (depth : Z) (label : Label) :
  0 <= depth -> nth_error (label_stack c) (Z.to_nat depth) = Some label ->
  istream_at_end c -> istream_offset c + 16 < 2 ^ 32 ->
  0 <= type_stack_limit label ->
  type_stack_limit label + get_label_br_arity label <= Z.of_nat (length (type_stack c)) ->
  Z.of_nat (length (type_stack c)) < UINT32_MAX ->
  get_label_br_arity label <= 1 ->
  get_label_br_arity label =
    match label_type label with
    | LABEL_TYPE_LOOP => 0
    | _ => Z.of_nat (length (sig label))
    end /\
  exists c', emit_br depth c = Some (WASM_OK, c') /\
    istream_buf c' =
      istream_buf c
      ++ drop_keep_bytes ((Z.of_nat (length (type_stack c)) - type_stack_limit label)
                          - get_label_br_arity label) (get_label_br_arity label)
      ++ [opcode_value WASM_OPCODE_BR] ++ le_bytes 4 (u32 (offset label)).
Proof.
  intros Hdepth Hnth Hend Hlt Hlim Hsize Hmax Har.
  assert (Har0 : 0 <= get_label_br_arity label)
    by (unfold get_label_br_arity; destruct (label_type label); lia).
  split; [reflexivity|].
  assert (G : get_label depth c = Some (label, c)).
  { unfold get_label, bind, get.
    assert (Hlt' : (Z.to_nat depth < length (label_stack c))%nat)
      by (apply nth_error_Some; congruence).
    replace (depth <? Z.of_nat (length (label_stack c))) with true
      by (symmetry; apply Z.ltb_lt; lia).
    rewrite Hnth. reflexivity. }
  unfold emit_br. rewrite (bind_some _ _ _ _ _ G). cbn [bind get].
  set (arity := get_label_br_arity label) in *.
  set (size := Z.of_nat (length (type_stack c))) in *.
  rewrite u32_small by (unfold UINT32_MAX in Hmax; lia).
  replace (type_stack_limit label + arity <=? size) with true by (symmetry; apply Z.leb_le; lia).
  rewrite u32_small by (unfold UINT32_MAX in Hmax; lia).
  set (drop := size - type_stack_limit label - arity).
  assert (Dk : (length (drop_keep_bytes drop arity) <= 6)%nat).
  { unfold drop_keep_bytes. destruct (drop =? 0); [cbn; lia|].
    destruct ((drop =? 1) && (arity =? 0)); [cbn; lia|].
    rewrite !length_app, !le_bytes_length. cbn. lia. }
  rewrite (bind_some _ _ _ _ _ (emit_drop_keep_ok c drop arity Hend ltac:(lia)
             ltac:(unfold drop, UINT32_MAX in *; lia) ltac:(lia))).
  cbv beta iota.
  pose proof (emitted_at_end c (drop_keep_bytes drop arity) Hend) as E1.
  unfold emit_opcode.
  rewrite (bind_some _ _ _ _ _
             (emit_data_ok _ (le_bytes 1 (opcode_value WASM_OPCODE_BR)) E1
                ltac:(rewrite emitted_offset, le_bytes_length; lia))).
  cbv beta iota.
  pose proof (emitted_at_end _ (le_bytes 1 (opcode_value WASM_OPCODE_BR)) E1) as E2.
  destruct (emit_br_offset_ok _ depth (offset label) E2
              ltac:(rewrite !emitted_offset, le_bytes_length; lia)) as (c' & Hc' & Hbuf & _).
  rewrite (bind_some _ _ _ _ _ Hc'). cbv beta iota.
  exists c'. split; [reflexivity|].
  rewrite Hbuf, !emitted_buf, <- !app_assoc. reflexivity.
Qed.

(** C4: [check_import_limits] succeeds exactly when the actual initial size
    is at least the declared one and, when a maximum is declared, the
    actual limits have a maximum no larger than it; otherwise it reports an
    error and fails. *)
Theorem check_import_limits_iff (c : Context) (declared actual : WasmLimits) :
  exists r c', check_import_limits declared actual c = Some (r, c') /\
    (r = WASM_OK <->
       initial declared <= initial actual /\
       (has_max declared = true -> has_max actual = true /\ max actual <= max declared)) /\
    (r = WASM_OK -> c' = c) /\
    (r = WASM_ERROR -> exists msg, errors c' = errors c ++ [msg]).
Proof.
  unfold check_import_limits.
  destruct (Z.ltb_spec (initial actual) (initial declared)).
  - do 2 eexists. split; [reflexivity|]. split; [split; [discriminate|lia]|].
    split; [discriminate|]. intros _. eexists. reflexivity.
  - destruct (has_max declared) eqn:Hd.
    + destruct (has_max actual) eqn:Ha; cbn [negb].
      * destruct (Z.ltb_spec (max declared) (max actual)).
        -- do 2 eexists. split; [reflexivity|].
           split; [split; [discriminate|intros [_ H']; specialize (H' eq_refl); lia]|].
           split; [discriminate|]. intros _. eexists. reflexivity.
        -- do 2 eexists. split; [reflexivity|].
           split; [split; [intros _; auto|reflexivity]|].
           split; [reflexivity|discriminate].
      * do 2 eexists. split; [reflexivity|].
        split; [split; [discriminate|intros [_ H']; specialize (H' eq_refl); intuition congruence]|].
        split; [discriminate|]. intros _. eexists. reflexivity.
    + do 2 eexists. split; [reflexivity|].
      split; [split; [intros _; split; [lia|discriminate]|reflexivity]|].
      split; [reflexivity|discriminate].
Qed.

(** C7: a [get_global] in an initializer expression is rejected with an
    error when the module-local index is not that of an imported global or
    when the referenced global is mutable; otherwise it succeeds and the
    init-expr value becomes the referenced global's typed value. *)
Theorem init_expr_get_global_cases (c : Context) (index global_index : Z) :
  (num_global_imports c <= global_index ->
     exists c', on_init_expr_get_global_expr index global_index c = Some (WASM_ERROR, c') /\
       errors c' = errors c ++
         ["initializer expression can only reference an imported global"%string]) /\
  (forall e g, 0 <= global_index < num_global_imports c ->
     nth_error (global_index_mapping c) (Z.to_nat global_index) = Some e -> 0 <= e ->
     nth_error (globals (env c)) (Z.to_nat e) = Some g ->
     if mutable_ g then
       exists c', on_init_expr_get_global_expr index global_index c = Some (WASM_ERROR, c') /\
         errors c' = errors c ++
           ["initializer expression cannot reference a mutable global"%string]
     else
       on_init_expr_get_global_expr index global_index c =
         Some (WASM_OK, set_init_expr_value (typed_value g) c)).
Proof.
  split.
  - intros H. unfold on_init_expr_get_global_expr. cbn [bind get].
    replace (num_global_imports c <=? global_index) with true by (symmetry; apply Z.leb_le; lia).
    eexists. split; reflexivity.
  - intros e g Hgi He He0 Hg. unfold on_init_expr_get_global_expr. cbn [bind get].
    replace (num_global_imports c <=? global_index) with false by (symmetry; apply Z.leb_gt; lia).
    assert (Hm : (Z.to_nat global_index < length (global_index_mapping c))%nat)
      by (apply nth_error_Some; congruence).
    assert (Hgl : (Z.to_nat e < length (globals (env c)))%nat)
      by (apply nth_error_Some; congruence).
    assert (R : get_global_by_module_index global_index c = Some (g, c)).
    { unfold get_global_by_module_index, translate_global_index_to_env,
        get_global_by_env_index, bind, get.
      replace (global_index <? Z.of_nat (length (global_index_mapping c))) with true
        by (symmetry; apply Z.ltb_lt; lia).
      rewrite He. cbn [bind get ret].
      replace (e <? Z.of_nat (length (globals (env c)))) with true
        by (symmetry; apply Z.ltb_lt; lia).
      rewrite Hg. reflexivity. }
    rewrite (bind_some _ _ _ _ _ R).
    destruct (mutable_ g).
    + eexists. split; reflexivity.
    + reflexivity.
Qed.

Lemma append_export_keeps_globals m k i n c r c2 :
  append_export m k i n c = Some (r, c2) ->
  globals (env c2) = globals (env c) /\
  global_index_mapping c2 = global_index_mapping c /\
  num_global_imports c2 = num_global_imports c.
Proof.
  unfold append_export, bind, get, modify, ret, print_error.
  destruct (nth_error (modules (env c)) m) as [md|]; [|discriminate].
  destruct (existsb _ _); intros H; inversion H; subst; auto.
Qed.

(** C2: on the host-import path of [on_import_global], the environment
    index recorded in [global_index_mapping] is that of the newly appended
    global: [env->globals.size - 1] taken after the append, which is the
    size of [env->globals] before it. *)
Theorem on_import_global_host_index (c c' : Context) (import_index global_index : Z)
    (type : WasmType) (mutable : bool) :
  is_host_import c = true ->
  Z.of_nat (length (globals (env c))) < UINT32_MAX ->
  on_import_global import_index global_index type mutable c = Some (WASM_OK, c') ->
  length (globals (env c')) = S (length (globals (env c))) /\
  global_index_mapping c' =
    global_index_mapping c ++ [Z.of_nat (length (globals (env c'))) - 1] /\
  global_index_mapping c' =
    global_index_mapping c ++ [Z.of_nat (length (globals (env c)))].
Proof.
  intros Hhost Hsz H. unfold on_import_global in H. cbn [bind get] in H.
  destruct (import_index <? Z.of_nat (length (imports c))); [|discriminate].
  destruct (nth_error (imports c) (Z.to_nat import_index)) as [import|]; [|discriminate].
  rewrite Hhost in H. cbn [bind get modify ret] in H.
  destruct (host_import_global _ _ _) as [r g'] eqn:Hd.
  cbn [bind get modify ret] in H. destruct r; [|discriminate].
  cbn [bind get modify ret] in H.
  match type of H with
  | context [bind (append_export ?m ?k ?i ?n) _ ?c2] =>
      destruct (append_export m k i n c2) as [[r2 c3]|] eqn:Ha;
      [rewrite (bind_some _ _ _ _ _ Ha) in H; apply append_export_keeps_globals in Ha
      |unfold bind in H; rewrite Ha in H; discriminate]
  end.
  cbn [bind get modify ret import_global_finish] in H.
  injection H as <-. destruct Ha as (Hg & Hm & _).
  cbn in Hg, Hm |- *. rewrite Hm.
  assert (Hlen : length (globals (env c3)) = S (length (globals (env c)))).
  { rewrite Hg. cbn. rewrite removelast_last, length_app. cbn. lia. }
  rewrite Hg in Hlen. rewrite Hg. split; [exact Hlen|].
  rewrite Hlen, u32_small by (unfold UINT32_MAX in Hsz; lia).
  split; f_equal; f_equal; lia.
Qed.

Lemma on_import_global_host_index_witness :
  exists c',
    (is_host_import ctx_host_import = true /\
     Z.of_nat (length (globals (env ctx_host_import))) < UINT32_MAX /\
     on_import_global 0 0 WASM_TYPE_I32 false ctx_host_import = Some (WASM_OK, c')) /\
    (length (globals (env c')) = S (length (globals (env ctx_host_import))) /\
     global_index_mapping c' =
       global_index_mapping ctx_host_import ++ [Z.of_nat (length (globals (env c'))) - 1] /\
     global_index_mapping c' =
       global_index_mapping ctx_host_import ++ [Z.of_nat (length (globals (env ctx_host_import)))]).
Proof.
  eexists. split.
  - split; [reflexivity|]. split; [concrete|]. cbv. reflexivity.
  - apply (on_import_global_host_index ctx_host_import _ 0 0 WASM_TYPE_I32 false);
      [reflexivity|concrete|cbv; reflexivity].
Defined.

(** C3: the non-host path of [on_import_global] accepts an import declared
    mutable of a registered module's immutable global, reports no error,
    and maps it to environment global 0. *)
Lemma on_import_global_mutable_accepted :
  exists c',
    on_import_global 0 0 WASM_TYPE_I32 true ctx_module_import = Some (WASM_OK, c') /\
    errors c' = [] /\ global_index_mapping c' = [0] /\ num_global_imports c' = 1 /\
    map import_global_mutable (imports c') = [true] /\
    map mutable_ (globals (env c')) = [false].
Proof. eexists. split; [cbv; reflexivity|]. repeat split. Qed.

Lemma check_import_limits_iff_witness :
  exists r c',
    check_import_limits {| initial := 1; max := 2; has_max := true |}
                        {| initial := 1; max := 3; has_max := true |} ctx_branch = Some (r, c') /\
    (r = WASM_OK <-> 1 <= 1 /\ (true = true -> true = true /\ 3 <= 2)) /\
    (r = WASM_OK -> c' = ctx_branch) /\
    (r = WASM_ERROR -> exists msg, errors c' = errors ctx_branch ++ [msg]).
Proof.
  exact (check_import_limits_iff ctx_branch {| initial := 1; max := 2; has_max := true |}
                                 {| initial := 1; max := 3; has_max := true |}).
Defined.

Lemma init_expr_get_global_cases_witness :
  on_init_expr_get_global_expr 0 0 ctx_init_expr =
    Some (WASM_OK, set_init_expr_value (typed_value exported_global) ctx_init_expr).
Proof.
  exact (proj2 (init_expr_get_global_cases ctx_init_expr 0 0) 0 exported_global
           ltac:(concrete) eq_refl ltac:(concrete) eq_refl).
Defined.

Lemma emit_drop_keep_cases_witness :
  emit_drop_keep 3 1 ctx_branch =
    Some (WASM_OK, emitted ctx_branch ([opcode_value WASM_OPCODE_DROP_KEEP] ++
                                       le_bytes 4 3 ++ le_bytes 1 1)).
Proof.
  exact (proj2 (proj2 (emit_drop_keep_cases ctx_branch 3 1
                         ltac:(concrete) ltac:(concrete) ltac:(concrete) ltac:(concrete)))
           ltac:(lia) ltac:(lia)).
Defined.

Lemma emit_br_arity_drop_keep_witness :
  get_label_br_arity block_label = Z.of_nat (length (sig block_label)) /\
  exists c', emit_br 0 ctx_branch = Some (WASM_OK, c') /\
    istream_buf c' =
      istream_buf ctx_branch ++ drop_keep_bytes 2 1
      ++ [opcode_value WASM_OPCODE_BR] ++ le_bytes 4 (u32 WASM_INVALID_OFFSET).
Proof.
  exact (emit_br_arity_drop_keep ctx_branch 0 block_label ltac:(concrete) eq_refl
           ltac:(concrete) ltac:(concrete) ltac:(concrete) ltac:(concrete)
           ltac:(concrete) ltac:(concrete)).
Defined.

Lemma last_nth_error {A} (l : list A) d :
  l <> [] -> nth_error l (length l - 1) = Some (last l d).
Proof.
  induction l as [|x l IH]; intros Hne; [contradiction|].
  destruct l as [|y l]; [reflexivity|].
  replace (length (x :: y :: l) - 1)%nat with (S (length (y :: l) - 1)) by (cbn; lia).
  cbn [nth_error]. rewrite IH by discriminate. reflexivity.
Qed.

(** C5: when the "any" marker is on top of the type stack above the
    params-and-locals region, [push_type] of a non-void type leaves the
    stack unchanged and [pop_type] returns "any" without shrinking it; in
    every other state [push_type] appends the type and [pop_type] removes
    and returns the top element.  The params-and-locals region holds the
    value types of the signature and of the local declarations, never the
    marker; [pop_type] is called with the stack above the top label's
    floor (its [assert]). *)
Theorem push_pop_type_any (c : Context) (t : WasmType) (label : Label) :
  t <> WASM_TYPE_VOID ->
  (forall i, (i < length (cur_param_and_local_types c))%nat ->
             nth_error (type_stack c) i <> Some WASM_TYPE_ANY) ->
  (top_type_is_any c = true ->
     push_type t c = Some (tt, c) /\
     (top_label c = Some (label, c) ->
      0 <= type_stack_limit label < Z.of_nat (length (type_stack c)) ->
      pop_type c = Some (WASM_TYPE_ANY, c))) /\
  (top_type_is_any c = false ->
     push_type t c = Some (tt, set_type_stack (type_stack c ++ [t]) c) /\
     (top_label c = Some (label, c) ->
      0 <= type_stack_limit label < Z.of_nat (length (type_stack c)) ->
      type_stack c = removelast (type_stack c) ++ [last (type_stack c) WASM_TYPE_VOID] /\
      pop_type c = Some (last (type_stack c) WASM_TYPE_VOID,
                         set_type_stack (removelast (type_stack c)) c))).
Proof.
  intros Hvoid Hregion.
  assert (Hv : type_eqb t WASM_TYPE_VOID = false) by (destruct t; cbn; congruence).
  assert (Pop : top_label c = Some (label, c) ->
                type_stack_limit label < Z.of_nat (length (type_stack c)) ->
                pop_type c =
                  (if negb (type_eqb (last (type_stack c) WASM_TYPE_VOID) WASM_TYPE_ANY)
                   then Some (last (type_stack c) WASM_TYPE_VOID,
                              set_type_stack (removelast (type_stack c)) c)
                   else Some (last (type_stack c) WASM_TYPE_VOID, c))).
  { intros Hl Hlim.
    assert (T : top_type c = Some (last (type_stack c) WASM_TYPE_VOID, c)).
    { unfold top_type. rewrite (bind_some _ _ _ _ _ Hl). cbn [bind get].
      replace (type_stack_limit label <? _) with true
        by (symmetry; apply Z.ltb_lt; exact Hlim).
      reflexivity. }
    unfold pop_type. rewrite (bind_some _ _ _ _ _ T).
    destruct (negb _); reflexivity. }
  split.
  - intros Hany. split.
    + unfold push_type, bind, get. rewrite Hany. reflexivity.
    + intros Hl [_ Hlim]. rewrite (Pop Hl Hlim).
      unfold top_type_is_any in Hany. apply andb_prop in Hany as [_ Ht].
      rewrite Ht. destruct (last _ _); try discriminate. reflexivity.
  - intros Hnany. split.
    + unfold push_type, bind, get. rewrite Hnany, Hv. reflexivity.
    + intros Hl [H0 Hlim].
      assert (Hne : type_stack c <> []) by (intros E; rewrite E in Hlim; cbn in Hlim; lia).
      split; [apply app_removelast_last, Hne|].
      rewrite (Pop Hl Hlim).
      destruct (type_eqb (last (type_stack c) WASM_TYPE_VOID) WASM_TYPE_ANY) eqn:Ht;
        [|reflexivity].
      exfalso. unfold top_type_is_any in Hnany. rewrite Ht, andb_true_r in Hnany.
      apply Nat.ltb_ge in Hnany.
      apply (Hregion (length (type_stack c) - 1)%nat).
      * assert (length (type_stack c) <> 0)%nat
          by (destruct (type_stack c); [contradiction|discriminate]).
        lia.
      * rewrite (last_nth_error _ WASM_TYPE_VOID Hne).
        destruct (last _ _); try discriminate. reflexivity.
Qed.

Lemma push_pop_type_any_witness :
  push_type WASM_TYPE_I32 ctx_any = Some (tt, ctx_any) /\
  pop_type ctx_any = Some (WASM_TYPE_ANY, ctx_any).
Proof.
  destruct (proj1 (push_pop_type_any ctx_any WASM_TYPE_I32 block_label ltac:(discriminate)
                     ltac:(intros i Hi; cbn in Hi; lia)) eq_refl) as [A B].
  split; [exact A|]. apply B; [reflexivity|concrete].
Defined.



Lemma nth_error_update_nth {A} (f : A -> A) : forall l n m,
  nth_error (update_nth n f l) m =
    if Nat.eqb m n then option_map f (nth_error l n) else nth_error l m.
Proof.
  induction l as [|x l IH]; intros n m.
  - destruct n, m; cbn; try reflexivity. destruct (m =? n)%nat; reflexivity.
  - destruct n, m; cbn; try reflexivity. apply IH.
Qed.

Lemma length_update_nth {A} (f : A -> A) : forall l n, length (update_nth n f l) = length l.
Proof. induction l as [|x l IH]; intros [|n]; cbn; auto. Qed.

Lemma emit_data_at_eq o d c :
  emit_data_at o d c = Some (WASM_OK, set_istream_buf (snd (write_data (istream_buf c) o d)) c).
Proof. reflexivity. Qed.











(** C1: when the load fails, the environment is back at the mark taken on
    entry (the lengths of the signature, function, global, table, memory
    and module vectors and of the istream) and [*out_module] is null.  The
    decoder's callbacks only append to the environment and the istream. *)
Theorem load_failure_restores_mark
    (read_binary read_binary_segments : Context -> WasmResult * Context)
    (e e' : Env) (out out' : option nat) :
  (forall c, env_grows (env c) (env (snd (read_binary c))) /\
             (length (istream_buf c) <= length (istream_buf (snd (read_binary c))))%nat) ->
  wasm_read_binary_interpreter read_binary read_binary_segments e out =
    Some (WASM_ERROR, e', out') ->
  length (sigs e') = length (sigs e) /\ length (funcs e') = length (funcs e) /\
  length (globals e') = length (globals e) /\ length (tables e') = length (tables e) /\
  length (memories e') = length (memories e) /\ length (modules e') = length (modules e) /\
  length (env_istream e') = length (env_istream e) /\ out' = None.
Proof.
  intros Hgrow H. unfold wasm_read_binary_interpreter, wasm_init_mem_writer_existing in H.
  cbn zeta iota beta in H.
  match type of H with
  | context [read_binary ?c0] =>
      destruct (Hgrow c0) as [Henv Hbuf]; destruct (read_binary c0) as [r c1] eqn:Hr
  end.
  cbn [snd] in Henv, Hbuf.
  destruct r; cbn [WASM_SUCCEEDED] in H.
  - destruct (read_binary_segments _) as [[|] c2]; cbn [WASM_SUCCEEDED] in H;
      discriminate.
  - injection H as <- <-. cbn in Henv, Hbuf |- *.
    unfold env_grows in Henv. cbn in Henv. rewrite length_app in Henv. cbn in Henv.
    rewrite !length_firstn. repeat split; lia.
Qed.

Lemma load_failure_restores_mark_witness :
  exists e' out',
    wasm_read_binary_interpreter failing_pass failing_pass (env ctx_host_import) (Some 7%nat) =
      Some (WASM_ERROR, e', out') /\
    (length (sigs e') = length (sigs (env ctx_host_import)) /\
     length (funcs e') = length (funcs (env ctx_host_import)) /\
     length (globals e') = length (globals (env ctx_host_import)) /\
     length (tables e') = length (tables (env ctx_host_import)) /\
     length (memories e') = length (memories (env ctx_host_import)) /\
     length (modules e') = length (modules (env ctx_host_import)) /\
     length (env_istream e') = length (env_istream (env ctx_host_import)) /\ out' = None).
Proof.
  do 2 eexists. split; [cbv; reflexivity|].
  apply (load_failure_restores_mark failing_pass failing_pass _ _ (Some 7%nat)).
  - intros c. unfold failing_pass, env_grows. cbn. rewrite !length_app. cbn.
    repeat split; lia.
  - cbv. reflexivity.
Defined.

Lemma bind_inv {A B} (m : M A) (k : A -> M B) c y c'' :
  bind m k c = Some (y, c'') -> exists x c', m c = Some (x, c') /\ k x c' = Some (y, c'').
Proof. unfold bind. destruct (m c) as [[x c']|]; [eauto|discriminate]. Qed.

Section Preserves.
Variable R : Context -> Context -> Prop.
Hypothesis R_refl : forall c, R c c.
Hypothesis R_trans : forall a b d, R a b -> R b d -> R a d.

Lemma preserves_bind {A B} (m : M A) (k : A -> M B) :
  preserves R m -> (forall x, preserves R (k x)) -> preserves R (bind m k).
Proof.
  intros Hm Hk c y c'' H. apply bind_inv in H as (x & c' & H1 & H2).
  exact (R_trans _ _ _ (Hm _ _ _ H1) (Hk _ _ _ _ H2)).
Qed.

Lemma preserves_ret {A} (a : A) : preserves R (ret a).
Proof. intros c x c' H. injection H as _ <-. apply R_refl. Qed.

Lemma preserves_get : preserves R get.
Proof. intros c x c' H. injection H as _ <-. apply R_refl. Qed.

Lemma preserves_fail {A} : preserves R (@assert_fail A).
Proof. intros c x c' H. discriminate. Qed.
End Preserves.

Lemma stream_kept_refl c : stream_kept c c.
Proof. unfold stream_kept. auto. Qed.

Lemma stream_kept_trans a b d : stream_kept a b -> stream_kept b d -> stream_kept a d.
Proof. unfold stream_kept. intros (? & ? & ?) (? & ? & ?). repeat split; congruence || lia. Qed.

Lemma length_removelast_le {A} (l : list A) : (length (removelast l) <= length l)%nat.
Proof. induction l as [|a l IH]; [cbn; lia|]. destruct l; cbn in *; lia. Qed.

Lemma print_error_kept msg : preserves stream_kept (print_error msg).
Proof. intros c x c' H. injection H as _ <-. repeat split. cbn. lia. Qed.

Lemma pop_modify_kept :
  preserves stream_kept (modify (fun c => set_type_stack (removelast (type_stack c)) c)).
Proof.
  intros c x c' H. injection H as _ <-. repeat split. apply length_removelast_le.
Qed.

Create HintDb kept.
#[local] Hint Resolve stream_kept_refl stream_kept_trans print_error_kept pop_modify_kept : kept.

Ltac kept :=
  repeat match goal with
  | |- forall _, _ => intro
  | |- preserves _ (bind _ _) => apply (preserves_bind _ stream_kept_trans)
  | |- preserves _ (ret _) => apply (preserves_ret _ stream_kept_refl)
  | |- preserves _ get => apply (preserves_get _ stream_kept_refl)
  | |- preserves _ assert_fail => apply preserves_fail
  | |- preserves _ (if ?b then _ else _) => destruct b
  | |- preserves _ (match ?e with _ => _ end) => destruct e
  | |- _ => solve [eauto with kept]
  end.

Lemma get_label_kept d : preserves stream_kept (get_label d).
Proof. unfold get_label. kept. Qed.
#[local] Hint Resolve get_label_kept : kept.

Lemma top_label_kept : preserves stream_kept top_label.
Proof. unfold top_label. kept. Qed.
#[local] Hint Resolve top_label_kept : kept.

Lemma top_type_kept : preserves stream_kept top_type.
Proof. unfold top_type. kept. Qed.
#[local] Hint Resolve top_type_kept : kept.

Lemma check_type_stack_limit_kept e d : preserves stream_kept (check_type_stack_limit e d).
Proof. unfold check_type_stack_limit, ctx_type_stack_limit. kept. Qed.
#[local] Hint Resolve check_type_stack_limit_kept : kept.

Lemma check_type_kept e a d : preserves stream_kept (check_type e a d).
Proof. unfold check_type. kept. Qed.
#[local] Hint Resolve check_type_kept : kept.

Lemma pop_type_kept : preserves stream_kept pop_type.
Proof. unfold pop_type. kept. Qed.
#[local] Hint Resolve pop_type_kept : kept.

Lemma pop_and_check_1_type_kept e d : preserves stream_kept (pop_and_check_1_type e d).
Proof. unfold pop_and_check_1_type. kept. Qed.

Lemma check_local_same i c x c' :
  check_local i c = Some (x, c') ->
  istream_buf c' = istream_buf c /\ istream_offset c' = istream_offset c /\
  type_stack c' = type_stack c.
Proof.
  unfold check_local, bind, get, ret, print_error, modify.
  destruct (_ <=? _); intros H; injection H as _ <-; auto.
Qed.

Lemma get_local_type_same i c x c' :
  get_local_type_by_index i c = Some (x, c') -> c' = c.
Proof.
  unfold get_local_type_by_index, bind, get, ret, assert_fail.
  destruct (_ <? _); [|discriminate]. destruct (nth_error _ _); [|discriminate].
  intros H. injection H as _ <-. reflexivity.
Qed.

Lemma translate_local_index_spec i c x c' :
  translate_local_index i c = Some (x, c') ->
  c' = c /\ x = u32 (Z.of_nat (length (type_stack c)) - i) /\
  i < Z.of_nat (length (type_stack c)).
Proof.
  unfold translate_local_index, bind, get, ret, assert_fail.
  destruct (Z.ltb_spec i (Z.of_nat (length (type_stack c)))) as [Hlt|]; [|discriminate].
  intros H. injection H as <- <-. auto.
Qed.

Lemma push_type_same t c x c' :
  push_type t c = Some (x, c') ->
  istream_buf c' = istream_buf c /\ istream_offset c' = istream_offset c.
Proof.
  unfold push_type, bind, get, ret, modify.
  destruct (top_type_is_any c); [|destruct (negb _)];
    intros H; injection H as _ <-; auto.
Qed.

Lemma at_end_same c c' :
  istream_buf c' = istream_buf c -> istream_offset c' = istream_offset c ->
  istream_at_end c -> istream_at_end c'.
Proof. unfold istream_at_end. intros -> ->. auto. Qed.

(** The opcode and its translated index, emitted at the end of the istream
    from [c]: the final state and the index are those of
    [translate_local_index] at that point. *)
Lemma emit_local_op c op i k y c' :
  istream_at_end c -> istream_offset c + 5 < 2 ^ 32 ->
  0 <= i -> Z.of_nat (length (type_stack c)) < 2 ^ 32 ->
  (CHECK_RESULT emit_opcode op ;;
   idx <- translate_local_index i ;;
   CHECK_RESULT emit_i32 idx ;; k) c = Some (y, c') ->
  exists c1, k c1 = Some (y, c') /\
    istream_buf c1 = istream_buf c ++ le_bytes 1 (opcode_value op) ++
                       le_bytes 4 (Z.of_nat (length (type_stack c)) - i) /\
    type_stack c1 = type_stack c.
Proof.
  intros Hend Hlt Hi Hsz H. unfold emit_opcode in H.
  rewrite (bind_some _ _ _ _ _ (emit_data_ok c (le_bytes 1 (opcode_value op)) Hend
             ltac:(rewrite le_bytes_length; lia))) in H.
  cbv beta iota in H.
  apply bind_inv in H as (idx & c2 & Ht & H).
  apply translate_local_index_spec in Ht as (-> & -> & Hlt2).
  change (type_stack (emitted c ?d)) with (type_stack c) in H, Hlt2.
  unfold emit_i32 in H.
  rewrite !(u32_small (Z.of_nat (length (type_stack c)) - i)) in H by lia.
  set (d1 := le_bytes 1 (opcode_value op)) in H.
  set (d2 := le_bytes 4 (Z.of_nat (length (type_stack c)) - i)) in H.
  assert (L1 : length d1 = 1%nat) by apply le_bytes_length.
  assert (L2 : length d2 = 4%nat) by apply le_bytes_length.
  rewrite (bind_some _ _ _ _ _ (emit_data_ok (emitted c d1) d2 (emitted_at_end c d1 Hend)
             ltac:(rewrite emitted_offset, L1, L2; lia))) in H.
  cbv beta iota in H.
  eexists. split; [exact H|]. split.
  - rewrite emitted_buf, emitted_buf, <- app_assoc.
    reflexivity.
  - reflexivity.
Qed.

Ltac check_ok H := destruct H as [|]; cbv beta iota in H; [|unfold ret in H; discriminate].

(** C8: [get_local], [set_local] and [tee_local] with a local index [i]
    emit their opcode followed by the 32-bit depth [type_stack.size - i],
    where the size is taken when the index is emitted: before the push of
    [get_local], after the pop of [set_local]. *)
Theorem local_index_emitted (c c' : Context) (i : Z) :
  istream_at_end c -> istream_offset c + 5 < 2 ^ 32 ->
  0 <= i -> Z.of_nat (length (type_stack c)) < 2 ^ 32 ->
  (on_get_local_expr i c = Some (WASM_OK, c') ->
     istream_buf c' = istream_buf c ++ [opcode_value WASM_OPCODE_GET_LOCAL] ++
                        le_bytes 4 (Z.of_nat (length (type_stack c)) - i)) /\
  (on_set_local_expr i c = Some (WASM_OK, c') ->
     istream_buf c' = istream_buf c ++ [opcode_value WASM_OPCODE_SET_LOCAL] ++
                        le_bytes 4 (Z.of_nat (length (type_stack c')) - i)) /\
  (on_tee_local_expr i c = Some (WASM_OK, c') ->
     istream_buf c' = istream_buf c ++ [opcode_value WASM_OPCODE_TEE_LOCAL] ++
                        le_bytes 4 (Z.of_nat (length (type_stack c')) - i)).
Proof.
  intros Hend Hoff Hi Hsz.
  split; [|split]; intros H.
  - unfold on_get_local_expr in H.
    apply bind_inv in H as (r1 & c1 & H1 & H). check_ok r1.
    apply check_local_same in H1 as (B1 & O1 & T1).
    apply bind_inv in H as (t & c2 & H2 & H). apply get_local_type_same in H2. subst c2.
    cbv beta in H.
    apply emit_local_op in H as (c3 & H & B3 & T3);
      [| exact (at_end_same c c1 B1 O1 Hend) | rewrite O1; lia | lia | rewrite T1; lia].
    apply bind_inv in H as (u & c4 & H4 & H). apply push_type_same in H4 as (B4 & _).
    unfold ret in H. injection H as <-.
    rewrite B4, B3, B1, T1. reflexivity.
  - unfold on_set_local_expr in H.
    apply bind_inv in H as (r1 & c1 & H1 & H). check_ok r1.
    apply check_local_same in H1 as (B1 & O1 & T1).
    apply bind_inv in H as (t & c2 & H2 & H). apply get_local_type_same in H2. subst c2.
    cbv beta in H.
    apply bind_inv in H as (r3 & c3 & H3 & H). check_ok r3.
    apply pop_and_check_1_type_kept in H3 as (B3 & O3 & T3).
    apply emit_local_op in H as (c4 & H & B4 & T4);
      [| exact (at_end_same c c3 (eq_trans B3 B1) (eq_trans O3 O1) Hend)
       | rewrite O3, O1; lia | lia | rewrite T1 in T3; lia].
    unfold ret in H. injection H as <-.
    rewrite B4, B3, B1, T4. reflexivity.
  - unfold on_tee_local_expr in H.
    apply bind_inv in H as (r1 & c1 & H1 & H). check_ok r1.
    apply check_local_same in H1 as (B1 & O1 & T1).
    apply bind_inv in H as (t & c2 & H2 & H). apply get_local_type_same in H2. subst c2.
    cbv beta in H.
    apply bind_inv in H as (r3 & c3 & H3 & H). check_ok r3.
    apply check_type_stack_limit_kept in H3 as (B3 & O3 & T3).
    apply bind_inv in H as (v & c4 & H4 & H).
    apply top_type_kept in H4 as (B4 & O4 & T4).
    apply bind_inv in H as (r5 & c5 & H5 & H). check_ok r5.
    apply check_type_kept in H5 as (B5 & O5 & T5).
    apply emit_local_op in H as (c6 & H & B6 & T6);
      [| exact (at_end_same c c5 (eq_trans B5 (eq_trans B4 (eq_trans B3 B1)))
                  (eq_trans O5 (eq_trans O4 (eq_trans O3 O1))) Hend)
       | rewrite O5, O4, O3, O1; lia | lia | rewrite T1 in T3; lia].
    unfold ret in H. injection H as <-.
    rewrite B6, B5, B4, B3, B1, T6. reflexivity.
Qed.

Lemma local_index_emitted_witness :
  exists c', on_get_local_expr 1 ctx_locals = Some (WASM_OK, c') /\
    istream_buf c' = istream_buf ctx_locals ++ [opcode_value WASM_OPCODE_GET_LOCAL] ++
                       le_bytes 4 (3 - 1).
Proof.
  eexists. split; [cbv; reflexivity|].
  apply (proj1 (local_index_emitted ctx_locals _ 1
                  ltac:(concrete) ltac:(concrete) ltac:(lia) ltac:(concrete))).
  cbv; reflexivity.
Defined.

(** * More of the validator *)

Lemma type_eqb_spec a b : type_eqb a b = true <-> a = b.
Proof. destruct a, b; cbn; split; congruence. Qed.

Lemma check_type_cases e a d c :
  top_type_is_any c = false ->
  check_type e a d c =
    if type_eqb e a then Some (WASM_OK, c)
    else Some (WASM_ERROR, set_errors (errors c ++ [String.append "type mismatch in " d]) c).
Proof. intros H. unfold check_type, bind, get. rewrite H. destruct (type_eqb e a); reflexivity. Qed.

Lemma top_type_is_any_errors v c : top_type_is_any (set_errors v c) = top_type_is_any c.
Proof. reflexivity. Qed.

Lemma check_n_types_loop_spec expected desc fuel : forall c i,
  top_type_is_any c = false ->
  (length expected <= length (type_stack c))%nat ->
  (i + fuel = length expected)%nat ->
  exists r c', check_n_types_loop expected desc i fuel c = Some (r, c') /\
    (r = WASM_OK -> c' = c) /\
    (r = WASM_ERROR ->
       c' = set_errors (errors c ++ [String.append "type mismatch in " desc]) c) /\
    (r = WASM_OK <-> forall j, (i <= j < length expected)%nat ->
        nth (length (type_stack c) - length expected + j) (type_stack c) WASM_TYPE_VOID =
        nth (length expected - j - 1) expected WASM_TYPE_VOID).
Proof.
  induction fuel as [|fuel IH]; intros c i Hany Hn Hi.
  - exists WASM_OK, c. cbn. repeat split; auto; try discriminate. intros. lia.
  - cbn [check_n_types_loop]. unfold bind at 1, get.
    set (n := length expected) in *. set (ts := type_stack c) in *.
    replace (0 <=? Z.of_nat (length ts) - Z.of_nat n + Z.of_nat i) with true
      by (symmetry; apply Z.leb_le; lia).
    replace (Z.to_nat (Z.of_nat (length ts) - Z.of_nat n + Z.of_nat i))
      with (length ts - n + i)%nat by lia.
    rewrite (nth_error_nth' ts WASM_TYPE_VOID) by lia.
    rewrite (nth_error_nth' expected WASM_TYPE_VOID) by lia.
    unfold bind at 1. rewrite check_type_cases by exact Hany.
    destruct (type_eqb (nth (n - i - 1) expected WASM_TYPE_VOID)
                       (nth (length ts - n + i) ts WASM_TYPE_VOID)) eqn:E.
    + apply type_eqb_spec in E.
      destruct (IH c (S i) Hany Hn ltac:(lia)) as (r & c' & H1 & H2 & H3 & H4).
      exists r, c'. split; [exact H1|]. split; [exact H2|]. split; [exact H3|].
      rewrite H4. split.
      * intros P j Hj. destruct (Nat.eq_dec j i) as [->|]; [auto|apply P; lia].
      * intros P j Hj. apply P. lia.
    + eexists WASM_ERROR, _. split; [reflexivity|].
      split; [discriminate|]. split; [reflexivity|]. split; [discriminate|].
      intros P. specialize (P i ltac:(lia)). rewrite P in E.
      rewrite (proj2 (type_eqb_spec _ _) eq_refl) in E. discriminate.
Qed.

Lemma check_type_stack_limit_cases e d c label :
  top_type_is_any c = false -> top_label c = Some (label, c) ->
  0 <= type_stack_limit label <= Z.of_nat (length (type_stack c)) ->
  Z.of_nat (length (type_stack c)) < 2 ^ 32 ->
  check_type_stack_limit e d c =
    if Z.of_nat (length (type_stack c)) - type_stack_limit label <? e
    then Some (WASM_ERROR, set_errors (errors c ++
                 [String.append "type stack size too small at " d]) c)
    else Some (WASM_OK, c).
Proof.
  intros Hany Htop Hl Hsz. unfold check_type_stack_limit, ctx_type_stack_limit.
  unfold bind at 1, get. rewrite Hany.
  rewrite (bind_some _ _ _ _ _ (bind_some _ _ _ _ _ Htop)).
  unfold ret at 1. cbv beta.
  rewrite Z.mod_small by lia.
  destruct (_ <? e); reflexivity.
Qed.

Lemma skipn_rev_iff (ts expected : list WasmType) :
  (length expected <= length ts)%nat ->
  ((forall j, (0 <= j < length expected)%nat ->
      nth (length ts - length expected + j) ts WASM_TYPE_VOID =
      nth (length expected - j - 1) expected WASM_TYPE_VOID) <->
   skipn (length ts - length expected) ts = rev expected).
Proof.
  intros Hn. split.
  - intros P. apply nth_ext with (d := WASM_TYPE_VOID) (d' := WASM_TYPE_VOID).
    + rewrite length_skipn, length_rev. lia.
    + intros j Hj. rewrite length_skipn in Hj.
      rewrite nth_skipn, rev_nth by lia. rewrite P by lia. f_equal. lia.
  - intros E j Hj. rewrite <- nth_skipn, E, rev_nth by lia. f_equal. lia.
Qed.

Lemma check_n_types_any expected desc c :
  top_type_is_any c = true -> check_n_types expected desc c = Some (WASM_OK, c).
Proof. intros H. unfold check_n_types, bind, get. rewrite H. reflexivity. Qed.

Lemma check_n_types_cases expected desc c label :
  top_type_is_any c = false -> top_label c = Some (label, c) ->
  0 <= type_stack_limit label <= Z.of_nat (length (type_stack c)) ->
  Z.of_nat (length (type_stack c)) < 2 ^ 32 ->
  exists r c', check_n_types expected desc c = Some (r, c') /\
    (r = WASM_OK -> c' = c) /\
    (r = WASM_ERROR -> exists msg, c' = set_errors (errors c ++ [msg]) c) /\
    (r = WASM_OK <->
       Z.of_nat (length expected) <= Z.of_nat (length (type_stack c)) - type_stack_limit label /\
       skipn (length (type_stack c) - length expected) (type_stack c) = rev expected).
Proof.
  intros Hany Htop Hl Hsz. unfold check_n_types. unfold bind at 1, get. rewrite Hany.
  unfold bind at 1. rewrite (check_type_stack_limit_cases _ _ _ _ Hany Htop Hl Hsz).
  destruct (Z.ltb_spec (Z.of_nat (length (type_stack c)) - type_stack_limit label)
              (Z.of_nat (length expected))) as [Hlt|Hge].
  - eexists WASM_ERROR, _. split; [reflexivity|].
    split; [discriminate|]. split; [intros _; eexists; reflexivity|].
    split; [discriminate|]. lia.
  - destruct (check_n_types_loop_spec expected desc (length expected) c 0 Hany
                ltac:(lia) ltac:(lia)) as (r & c' & H1 & H2 & H3 & H4).
    exists r, c'. split; [exact H1|]. split; [exact H2|].
    split; [intros E; exists (String.append "type mismatch in " desc); exact (H3 E)|].
    rewrite H4, <- skipn_rev_iff by lia. split.
    + intros P. split; [lia|]. intros j Hj. apply P. lia.
    + intros [_ P] j Hj. apply P. lia.
Qed.

(** [check_n_types] passes in unreachable code (the "any" marker on top of
    the stack) without looking at the stack. Otherwise it succeeds exactly
    when the top label's part of the type stack holds at least as many
    values as [expected] and the top [length expected] slots, read from the
    bottom up, are [expected] in reverse order; on success the state is
    unchanged, on failure only one error message is added. *)
Theorem check_n_types_spec expected desc c :
  (top_type_is_any c = true -> check_n_types expected desc c = Some (WASM_OK, c)) /\
  (forall label, top_type_is_any c = false -> top_label c = Some (label, c) ->
   0 <= type_stack_limit label <= Z.of_nat (length (type_stack c)) ->
   Z.of_nat (length (type_stack c)) < 2 ^ 32 ->
   exists r c', check_n_types expected desc c = Some (r, c') /\
     (r = WASM_OK -> c' = c) /\
     (r = WASM_ERROR -> exists msg, c' = set_errors (errors c ++ [msg]) c) /\
     (r = WASM_OK <->
        Z.of_nat (length expected) <= Z.of_nat (length (type_stack c)) - type_stack_limit label /\
        skipn (length (type_stack c) - length expected) (type_stack c) = rev expected)).
Proof.
  split; [apply check_n_types_any|].
  intros label. apply check_n_types_cases.
Qed.

Lemma set_type_stack_twice v w c : set_type_stack v (set_type_stack w c) = set_type_stack v c.
Proof. reflexivity. Qed.

Lemma top_type_is_any_app_last ts t c :
  t <> WASM_TYPE_ANY -> top_type_is_any (set_type_stack (ts ++ [t]) c) = false.
Proof.
  intros H. unfold top_type_is_any. cbn. rewrite last_last.
  destruct t; try reflexivity; try (apply andb_false_r). contradiction.
Qed.

Lemma push_type_append t c :
  top_type_is_any c = false -> t <> WASM_TYPE_VOID ->
  push_type t c = Some (tt, set_type_stack (type_stack c ++ [t]) c).
Proof.
  intros Hany Hv. unfold push_type, bind, get. rewrite Hany.
  destruct t; try reflexivity. contradiction.
Qed.

Lemma push_types_loop_spec types : forall c,
  top_type_is_any c = false ->
  Forall (fun t => t <> WASM_TYPE_VOID /\ t <> WASM_TYPE_ANY) types ->
  push_types_loop types c = Some (tt, set_type_stack (type_stack c ++ types) c).
Proof.
  induction types as [|t ts IH]; intros c Hany Hf.
  - cbn. rewrite app_nil_r. destruct c; reflexivity.
  - inversion Hf as [|? ? [Hv Ha] Hf']; subst. cbn [push_types_loop].
    rewrite (bind_some _ _ _ _ _ (push_type_append t c Hany Hv)).
    rewrite IH; [|apply top_type_is_any_app_last, Ha|exact Hf'].
    cbn. rewrite <- app_assoc. reflexivity.
Qed.

Lemma push_types_spec types c :
  top_type_is_any c = false ->
  Forall (fun t => t <> WASM_TYPE_VOID /\ t <> WASM_TYPE_ANY) types ->
  push_types types c = Some (tt, set_type_stack (type_stack c ++ types) c).
Proof.
  intros Hany Hf. unfold push_types, bind, get. rewrite Hany.
  apply push_types_loop_spec; assumption.
Qed.

Lemma top_label_same_labels c c' l :
  label_stack c' = label_stack c -> top_label c = Some (l, c) -> top_label c' = Some (l, c').
Proof.
  unfold top_label, get_label, bind, get, ret, assert_fail. intros E. rewrite E.
  destruct (_ <? _); [|discriminate]. destruct (nth_error _ _); congruence.
Qed.

Lemma top_type_is_any_app types c :
  top_type_is_any c = false ->
  Forall (fun t => t <> WASM_TYPE_VOID /\ t <> WASM_TYPE_ANY) types ->
  top_type_is_any (set_type_stack (type_stack c ++ types) c) = false.
Proof.
  intros Hany Hf. destruct types as [|t tys] using rev_ind.
  - rewrite app_nil_r. destruct c; exact Hany.
  - apply Forall_app in Hf as [_ Hf]. inversion Hf as [|? ? [_ Ha]]; subst.
    rewrite app_assoc. apply top_type_is_any_app_last, Ha.
Qed.

Lemma push_types_then_check_cases sig desc c label :
  top_type_is_any c = false -> top_label c = Some (label, c) ->
  0 <= type_stack_limit label <= Z.of_nat (length (type_stack c)) ->
  Z.of_nat (length (type_stack c) + length sig) < 2 ^ 32 ->
  Forall (fun t => t <> WASM_TYPE_VOID /\ t <> WASM_TYPE_ANY) sig ->
  exists r c', (push_types sig ;; check_n_types sig desc) c = Some (r, c') /\
    (r = WASM_OK <-> rev sig = sig).
Proof.
  intros Hany Htop Hl Hsz Hf.
  rewrite (bind_some _ _ _ _ _ (push_types_spec sig c Hany Hf)).
  set (c1 := set_type_stack (type_stack c ++ sig) c).
  assert (T1 : top_label c1 = Some (label, c1)) by (apply (top_label_same_labels c); auto).
  assert (A1 : top_type_is_any c1 = false) by (apply top_type_is_any_app; auto).
  assert (L1 : length (type_stack c1) = (length (type_stack c) + length sig)%nat)
    by (apply length_app).
  destruct (check_n_types_cases sig desc c1 label A1 T1 ltac:(rewrite L1; lia)
              ltac:(rewrite L1; lia)) as (r & c' & H1 & _ & _ & H4).
  exists r, c'. split; [exact H1|]. rewrite H4, L1.
  replace (length (type_stack c) + length sig - length sig)%nat
    with (length (type_stack c)) by lia.
  change (type_stack c1) with (type_stack c ++ sig).
  rewrite skipn_app, skipn_all, Nat.sub_diag, skipn_O. cbn.
  split; [intros [_ E]; symmetry; exact E|]. intros E. split; [lia|symmetry; exact E].
Qed.

(** Outside unreachable code, pushing a signature's types with
    [push_types] and checking them with [check_n_types] succeeds exactly
    when the signature reads the same reversed: the order
    [check_n_types] expects is the reverse of the order [push_types]
    produces. In unreachable code both are no-ops and every signature
    passes. *)
Theorem push_types_then_check_n_types sig desc c :
  (top_type_is_any c = true ->
   (push_types sig ;; check_n_types sig desc) c = Some (WASM_OK, c)) /\
  (forall label, top_type_is_any c = false -> top_label c = Some (label, c) ->
   0 <= type_stack_limit label <= Z.of_nat (length (type_stack c)) ->
   Z.of_nat (length (type_stack c) + length sig) < 2 ^ 32 ->
   Forall (fun t => t <> WASM_TYPE_VOID /\ t <> WASM_TYPE_ANY) sig ->
   exists r c', (push_types sig ;; check_n_types sig desc) c = Some (r, c') /\
     (r = WASM_OK <-> rev sig = sig)).
Proof.
  split.
  - intros H.
    assert (P : push_types sig c = Some (tt, c))
      by (unfold push_types, bind, get; rewrite H; reflexivity).
    rewrite (bind_some _ _ _ _ _ P). apply check_n_types_any, H.
  - intros label. apply push_types_then_check_cases.
Qed.

Lemma length_removelast {A} (l : list A) : l <> [] -> length (removelast l) = (length l - 1)%nat.
Proof.
  intros Hne. destruct (exists_last Hne) as (l' & x & ->).
  rewrite removelast_last, length_app. cbn. lia.
Qed.

Lemma top_label_ok c :
  label_stack c <> [] -> Z.of_nat (length (label_stack c)) <= 2 ^ 32 ->
  exists l, nth_error (label_stack c) (length (label_stack c) - 1) = Some l /\
            top_label c = Some (l, c).
Proof.
  intros Hne Hsz.
  assert (Hl : (length (label_stack c) <> 0)%nat) by (destruct (label_stack c); cbn; congruence).
  destruct (nth_error (label_stack c) (length (label_stack c) - 1)) as [l|] eqn:E.
  - exists l. split; [reflexivity|].
    unfold top_label, get_label, bind, get.
    rewrite u32_small by lia.
    replace (_ <? _) with true by (symmetry; apply Z.ltb_lt; lia).
    replace (Z.to_nat _) with (length (label_stack c) - 1)%nat by lia.
    rewrite E. reflexivity.
  - apply nth_error_None in E. lia.
Qed.

Lemma top_label_empty c : label_stack c = [] -> top_label c = None.
Proof. intros H. unfold top_label, get_label, bind, get. rewrite H. reflexivity. Qed.

Lemma pop_label_ok c :
  label_stack c <> [] -> Z.of_nat (length (label_stack c)) <= 2 ^ 32 ->
  pop_label c = Some (tt, set_depth_fixups
                            (firstn (length (label_stack c) - 1) (depth_fixups c))
                            (set_label_stack (removelast (label_stack c)) c)).
Proof.
  intros Hne Hsz. destruct (top_label_ok c Hne Hsz) as (l & _ & Ht).
  unfold pop_label. rewrite (bind_some _ _ _ _ _ Ht).
  unfold bind, get, modify, ret. cbn [label_stack depth_fixups set_label_stack].
  rewrite (length_removelast _ Hne).
  destruct (Nat.ltb_spec (length (label_stack c) - 1) (length (depth_fixups c))).
  - cbn. rewrite (length_removelast _ Hne). reflexivity.
  - rewrite firstn_all2 by lia. destruct c; reflexivity.
Qed.

(** [pop_label] aborts on an empty label stack; otherwise it removes the
    top label and cuts the depth-fixup table to the remaining labels. *)
Theorem pop_label_spec c :
  (label_stack c = [] -> pop_label c = None) /\
  (label_stack c <> [] -> Z.of_nat (length (label_stack c)) <= 2 ^ 32 ->
   pop_label c = Some (tt, set_depth_fixups
                             (firstn (length (label_stack c) - 1) (depth_fixups c))
                             (set_label_stack (removelast (label_stack c)) c))).
Proof.
  split.
  - intros H. unfold pop_label, bind at 1. rewrite (top_label_empty c H). reflexivity.
  - apply pop_label_ok.
Qed.

(** Pushing a label and popping it restores the loader state, except that
    the depth-fixup table is cut to the label count. *)
Theorem push_label_pop_label t s o f c :
  Z.of_nat (length (label_stack c)) + 1 <= 2 ^ 32 ->
  (push_label t s o f ;; pop_label) c =
    Some (tt, set_depth_fixups (firstn (length (label_stack c)) (depth_fixups c)) c).
Proof.
  intros Hsz. unfold push_label at 1. unfold bind at 1, modify.
  set (c1 := set_label_stack _ c).
  assert (Hne : label_stack c1 <> []) by (cbn; destruct (label_stack c); discriminate).
  rewrite (pop_label_ok c1 Hne ltac:(cbn; rewrite length_app; cbn; lia)).
  cbn. rewrite removelast_last, length_app. cbn.
  replace (length (label_stack c) + 1 - 1)%nat with (length (label_stack c)) by lia.
  destruct c; reflexivity.
Qed.

(** A relative branch depth [d] below the label count selects the [d]-th
    label from the top and leaves the state unchanged; a depth at or
    above the count aborts. *)
Theorem translate_depth_get_label d c :
  0 <= d -> Z.of_nat (length (label_stack c)) <= 2 ^ 32 ->
  (d < Z.of_nat (length (label_stack c)) ->
   exists l, nth_error (rev (label_stack c)) (Z.to_nat d) = Some l /\
     (i <- translate_depth d ;; get_label i) c = Some (l, c)) /\
  (Z.of_nat (length (label_stack c)) <= d -> (i <- translate_depth d ;; get_label i) c = None).
Proof.
  intros Hd Hsz. split.
  - intros Hlt. rewrite nth_error_rev.
    replace (Z.to_nat d <? length (label_stack c))%nat with true
      by (symmetry; apply Nat.ltb_lt; lia).
    destruct (nth_error (label_stack c) (length (label_stack c) - S (Z.to_nat d))) as [l|] eqn:E.
    + exists l. split; [reflexivity|].
      unfold translate_depth, get_label, bind, get, ret.
      replace (d <? _) with true by (symmetry; apply Z.ltb_lt; lia).
      rewrite u32_small by lia.
      replace (_ - 1 - d <? _) with true by (symmetry; apply Z.ltb_lt; lia).
      replace (Z.to_nat _) with (length (label_stack c) - S (Z.to_nat d))%nat by lia.
      rewrite E. reflexivity.
    + apply nth_error_None in E. lia.
  - intros Hge. unfold translate_depth, bind, get.
    replace (d <? _) with false by (symmetry; apply Z.ltb_ge; lia). reflexivity.
Qed.

Lemma write_data_in_bounds b o d :
  0 <= o -> o + Z.of_nat (length d) <= Z.of_nat (length b) ->
  length (snd (write_data b o d)) = length b /\
  forall p, nth_error (snd (write_data b o d)) p =
    if (p <? Z.to_nat o)%nat || (Z.to_nat o + length d <=? p)%nat
    then nth_error b p else nth_error d (p - Z.to_nat o).
Proof.
  intros Ho Hb. unfold write_data. cbn [snd].
  replace (Z.to_nat o - length b)%nat with O by lia. cbn [repeat app].
  split.
  - rewrite length_app, length_app, length_firstn, length_skipn. lia.
  - intros p. rewrite nth_error_app. rewrite length_firstn.
    replace (Nat.min (Z.to_nat o) (length b)) with (Z.to_nat o) by lia.
    destruct (Nat.ltb_spec p (Z.to_nat o)).
    + cbn. rewrite nth_error_firstn. replace (p <? Z.to_nat o)%nat with true
        by (symmetry; apply Nat.ltb_lt; lia). reflexivity.
    + rewrite nth_error_app. cbn [orb].
      destruct (Nat.ltb_spec (p - Z.to_nat o) (length d)).
      * replace (Z.to_nat o + length d <=? p)%nat with false
          by (symmetry; apply Nat.leb_gt; lia). reflexivity.
      * replace (Z.to_nat o + length d <=? p)%nat with true
          by (symmetry; apply Nat.leb_le; lia).
        rewrite nth_error_skipn. f_equal. lia.
Qed.

Lemma emit_i32_at_all_spec fs v : forall c,
  Forall (fun f => 0 <= f /\ f + 4 <= Z.of_nat (length (istream_buf c))) fs ->
  ForallOrdPairs slot_disjoint fs ->
  exists b', emit_i32_at_all fs v c = Some (WASM_OK, set_istream_buf b' c) /\
    length b' = length (istream_buf c) /\
    Forall (fun f => forall k, (k < 4)%nat ->
              nth_error b' (Z.to_nat f + k) = nth_error (le_bytes 4 (u32 v)) k) fs /\
    (forall p, Forall (fun f => (p < Z.to_nat f \/ Z.to_nat f + 4 <= p)%nat) fs ->
       nth_error b' p = nth_error (istream_buf c) p).
Proof.
  induction fs as [|f fs IH]; intros c Hb Hd.
  - exists (istream_buf c). split; [cbn; destruct c; reflexivity|].
    split; [reflexivity|]. split; [constructor|]. auto.
  - inversion Hb as [|? ? Hf Hbs]; subst. inversion Hd as [|? ? Hdf Hds]; subst.
    set (d := le_bytes 4 (u32 v)).
    assert (Ld : length d = 4%nat) by apply le_bytes_length.
    destruct (write_data_in_bounds (istream_buf c) f d ltac:(lia) ltac:(rewrite Ld; lia))
      as [L1 N1].
    set (b1 := snd (write_data (istream_buf c) f d)) in *.
    cbn [emit_i32_at_all]. unfold emit_i32_at.
    rewrite (bind_some _ _ _ _ _ (emit_data_at_eq f d c)). cbv beta iota.
    set (c1 := set_istream_buf b1 c).
    destruct (IH c1 ltac:(change (istream_buf c1) with b1; rewrite L1; exact Hbs) Hds) as (b' & E & L' & S' & O').
    exists b'. split; [exact E|]. change (istream_buf c1) with b1 in L', O'.
    split; [congruence|]. split.
    + constructor; [|exact S'].
      intros k Hk. rewrite O'.
      * rewrite N1. fold d. rewrite Ld.
        replace ((Z.to_nat f + k <? Z.to_nat f)%nat || (Z.to_nat f + 4 <=? Z.to_nat f + k)%nat)
          with false by (symmetry; apply orb_false_iff; split;
                         [apply Nat.ltb_ge | apply Nat.leb_gt]; lia).
        f_equal. lia.
      * rewrite Forall_forall in Hdf, Hbs |- *. intros g Hin.
        specialize (Hdf g Hin). specialize (Hbs g Hin). unfold slot_disjoint in Hdf. lia.
    + intros p Hp. inversion Hp as [|? ? Hpf Hps]; subst.
      rewrite O' by exact Hps. rewrite N1. rewrite Ld.
      replace ((p <? Z.to_nat f)%nat || (Z.to_nat f + 4 <=? p)%nat) with true
        by (symmetry; apply orb_true_iff;
            destruct Hpf; [left; apply Nat.ltb_lt | right; apply Nat.leb_le]; lia).
      reflexivity.
Qed.

Lemma fixup_top_label_ok c v fixups :
  label_stack c <> [] -> Z.of_nat (length (label_stack c)) <= 2 ^ 32 ->
  nth_error (depth_fixups c) (length (label_stack c) - 1) = Some fixups ->
  Forall (fun f => 0 <= f /\ f + 4 <= Z.of_nat (length (istream_buf c))) fixups ->
  ForallOrdPairs slot_disjoint fixups ->
  exists c', fixup_top_label v c = Some (WASM_OK, c') /\
    length (istream_buf c') = length (istream_buf c) /\
    istream_offset c' = istream_offset c /\
    nth_error (depth_fixups c') (length (label_stack c) - 1) = Some [] /\
    Forall (fun f => forall k, (k < 4)%nat ->
      nth_error (istream_buf c') (Z.to_nat f + k) = nth_error (le_bytes 4 (u32 v)) k) fixups /\
    (forall p, Forall (fun f => (p < Z.to_nat f \/ Z.to_nat f + 4 <= p)%nat) fixups ->
       nth_error (istream_buf c') p = nth_error (istream_buf c) p).
Proof.
  intros Hne Hsz Hfx Hb Hd.
  assert (Hl : (length (label_stack c) <> 0)%nat) by (destruct (label_stack c); cbn; congruence).
  assert (Hlt : (length (label_stack c) - 1 < length (depth_fixups c))%nat)
    by (apply nth_error_Some; congruence).
  unfold fixup_top_label, bind at 1, get. rewrite u32_small by lia.
  replace (Z.of_nat (length (depth_fixups c)) <=? _) with false
    by (symmetry; apply Z.leb_gt; lia).
  replace (Z.to_nat _) with (length (label_stack c) - 1)%nat by lia.
  rewrite Hfx.
  destruct (emit_i32_at_all_spec fixups v c Hb Hd) as (b' & E & L & S & O).
  rewrite (bind_some _ _ _ _ _ E). cbv beta iota.
  eexists. split; [reflexivity|]. cbn.
  split; [exact L|]. split; [reflexivity|]. split.
  - rewrite nth_error_update_nth, Nat.eqb_refl, Hfx. reflexivity.
  - split; assumption.
Qed.


Lemma emit_i32_at_all_gen fs v : forall c,
  exists b, emit_i32_at_all fs v c = Some (WASM_OK, set_istream_buf b c).
Proof.
  induction fs as [|f fs IH]; intros c.
  - exists (istream_buf c). cbn. destruct c; reflexivity.
  - cbn [emit_i32_at_all]. unfold emit_i32_at.
    rewrite (bind_some _ _ _ _ _ (emit_data_at_eq f _ c)). cbv beta iota.
    destruct (IH (set_istream_buf (snd (write_data (istream_buf c) f (le_bytes 4 (u32 v)))) c))
      as (b & E). exists b. rewrite E. reflexivity.
Qed.

Lemma fixup_top_label_gen v c :
  label_stack c <> [] -> Z.of_nat (length (label_stack c)) <= 2 ^ 32 ->
  exists b fx, fixup_top_label v c = Some (WASM_OK, set_depth_fixups fx (set_istream_buf b c)) /\
    ((length (depth_fixups c) < length (label_stack c))%nat ->
     b = istream_buf c /\ fx = depth_fixups c).
Proof.
  intros Hne Hsz.
  assert (Hl : (length (label_stack c) <> 0)%nat) by (destruct (label_stack c); cbn; congruence).
  unfold fixup_top_label, bind at 1, get. rewrite u32_small by lia.
  destruct (Z.leb_spec (Z.of_nat (length (depth_fixups c))) (Z.of_nat (length (label_stack c)) - 1)).
  - exists (istream_buf c), (depth_fixups c). split; [destruct c; reflexivity|]. auto.
  - replace (Z.to_nat _) with (length (label_stack c) - 1)%nat by lia.
    destruct (nth_error (depth_fixups c) (length (label_stack c) - 1)) as [fs|] eqn:F.
    + destruct (emit_i32_at_all_gen fs v c) as (b & E).
      rewrite (bind_some _ _ _ _ _ E). cbv beta iota.
      eexists b, _. split; [reflexivity|]. intros. lia.
    + apply nth_error_None in F. lia.
Qed.

(** [fixup_top_label] writes the 32-bit value into every 4-byte slot
    recorded for the top label, leaves every other byte, the buffer length
    and the offset unchanged, and empties the top label's fixup list. *)
Theorem fixup_top_label_patches c v fixups :
  label_stack c <> [] -> Z.of_nat (length (label_stack c)) <= 2 ^ 32 ->
  nth_error (depth_fixups c) (length (label_stack c) - 1) = Some fixups ->
  Forall (fun f => 0 <= f /\ f + 4 <= Z.of_nat (length (istream_buf c))) fixups ->
  ForallOrdPairs slot_disjoint fixups ->
  exists c', fixup_top_label v c = Some (WASM_OK, c') /\
    length (istream_buf c') = length (istream_buf c) /\
    istream_offset c' = istream_offset c /\
    nth_error (depth_fixups c') (length (label_stack c) - 1) = Some [] /\
    Forall (fun f => forall k, (k < 4)%nat ->
      nth_error (istream_buf c') (Z.to_nat f + k) = nth_error (le_bytes 4 (u32 v)) k) fixups /\
    (forall p, Forall (fun f => (p < Z.to_nat f \/ Z.to_nat f + 4 <= p)%nat) fixups ->
       nth_error (istream_buf c') p = nth_error (istream_buf c) p).
Proof. apply fixup_top_label_ok. Qed.

(** [drop_types_for_return] does nothing in unreachable code. Otherwise
    it emits the drop/keep sequence for [size - arity] dropped and [arity]
    kept values when the stack holds [arity] values; with fewer it does
    nothing on an empty stack and aborts on a non-empty one. *)
Theorem drop_types_for_return_spec arity c :
  (top_type_is_any c = true -> drop_types_for_return arity c = Some (WASM_OK, c)) /\
  (top_type_is_any c = false -> istream_at_end c -> istream_offset c + 6 < 2 ^ 32 ->
   0 <= arity <= 1 -> Z.of_nat (length (type_stack c)) < UINT32_MAX ->
   (arity <= Z.of_nat (length (type_stack c)) ->
      drop_types_for_return arity c =
        Some (WASM_OK, emitted c (drop_keep_bytes (Z.of_nat (length (type_stack c)) - arity) arity))) /\
   (Z.of_nat (length (type_stack c)) < arity ->
      (type_stack c = [] -> drop_types_for_return arity c = Some (WASM_OK, c)) /\
      (type_stack c <> [] -> drop_types_for_return arity c = None))).
Proof.
  split.
  - intros Hany. unfold drop_types_for_return, bind, get. rewrite Hany. reflexivity.
  - intros Hany Hend Hoff Ha Hsz. unfold UINT32_MAX in Hsz.
    split.
    + intros Hle. unfold drop_types_for_return, bind at 1, get. rewrite Hany.
      replace (arity <=? Z.of_nat (length (type_stack c))) with true
        by (symmetry; apply Z.leb_le; lia).
      rewrite u32_small by lia.
      rewrite (bind_some _ _ _ _ _ (emit_drop_keep_ok c (Z.of_nat (length (type_stack c)) - arity)
                 arity Hend Hoff ltac:(unfold UINT32_MAX; lia) Ha)).
      reflexivity.
    + intros Hgt. split; intros E;
        unfold drop_types_for_return, bind at 1, get; rewrite Hany;
        replace (arity <=? Z.of_nat (length (type_stack c))) with false
          by (symmetry; apply Z.leb_gt; lia).
      * rewrite E. reflexivity.
      * replace (Z.of_nat (length (type_stack c)) =? 0) with false.
        -- reflexivity.
        -- symmetry. apply Z.eqb_neq. destruct (type_stack c); [contradiction|cbn; lia].
Qed.

Lemma top_type_is_any_last c :
  last (type_stack c) WASM_TYPE_VOID <> WASM_TYPE_ANY -> top_type_is_any c = false.
Proof.
  intros H. unfold top_type_is_any.
  destruct (type_eqb _ _) eqn:E; [apply type_eqb_spec in E; contradiction|].
  apply andb_false_r.
Qed.

Lemma pop_type_non_any c label :
  top_label c = Some (label, c) ->
  type_stack_limit label < Z.of_nat (length (type_stack c)) ->
  last (type_stack c) WASM_TYPE_VOID <> WASM_TYPE_ANY ->
  pop_type c = Some (last (type_stack c) WASM_TYPE_VOID,
                     set_type_stack (removelast (type_stack c)) c).
Proof.
  intros Htop Hl Hna. unfold pop_type, top_type, bind, get, ret, modify.
  rewrite Htop. cbv beta iota.
  replace (type_stack_limit label <? Z.of_nat (length (type_stack c))) with true
    by (symmetry; apply Z.ltb_lt; lia).
  destruct (type_eqb (last (type_stack c) WASM_TYPE_VOID) WASM_TYPE_ANY) eqn:E.
  - apply type_eqb_spec in E. contradiction.
  - reflexivity.
Qed.

(** Outside unreachable code, [drop] emits the [DROP] opcode and pops
    the top type when the top label's part of the stack is non-empty; on an
    empty part it reports an error and emits nothing. In unreachable code
    it emits [DROP] and leaves the type stack as it is when the "any"
    marker lies above the top label's limit; when the marker lies at or
    below the limit (unreachable code continued by a [block]), the
    assertion of [top_type] fails. *)
Theorem on_drop_expr_spec c label :
  top_label c = Some (label, c) ->
  0 <= type_stack_limit label <= Z.of_nat (length (type_stack c)) ->
  Z.of_nat (length (type_stack c)) < 2 ^ 32 ->
  istream_at_end c -> istream_offset c + 1 < 2 ^ 32 ->
  (last (type_stack c) WASM_TYPE_VOID <> WASM_TYPE_ANY ->
   (type_stack_limit label < Z.of_nat (length (type_stack c)) ->
    on_drop_expr c = Some (WASM_OK, set_type_stack (removelast (type_stack c))
                                       (emitted c [opcode_value WASM_OPCODE_DROP]))) /\
   (type_stack_limit label = Z.of_nat (length (type_stack c)) ->
    on_drop_expr c = Some (WASM_ERROR, set_errors (errors c ++
                             [String.append "type stack size too small at " "drop"]) c))) /\
  (top_type_is_any c = true ->
   (type_stack_limit label < Z.of_nat (length (type_stack c)) ->
    on_drop_expr c = Some (WASM_OK, emitted c [opcode_value WASM_OPCODE_DROP])) /\
   (type_stack_limit label = Z.of_nat (length (type_stack c)) -> on_drop_expr c = None)).
Proof.
  intros Htop Hl Hsz Hend Hoff.
  assert (D : emit_opcode WASM_OPCODE_DROP c =
              Some (WASM_OK, emitted c [opcode_value WASM_OPCODE_DROP]))
    by exact (emit_data_ok c (le_bytes 1 (opcode_value WASM_OPCODE_DROP))
                Hend ltac:(rewrite le_bytes_length; lia)).
  set (c1 := emitted c [opcode_value WASM_OPCODE_DROP]) in D.
  assert (T1 : top_label c1 = Some (label, c1)) by (apply (top_label_same_labels c); auto).
  split.
  - intros Hna. pose proof (top_type_is_any_last c Hna) as Hany.
    split; intros H; unfold on_drop_expr, bind at 1;
      rewrite (check_type_stack_limit_cases 1 "drop" c label Hany Htop Hl Hsz).
    + rename H into Hlt. replace (_ - _ <? 1) with false by (symmetry; apply Z.ltb_ge; lia).
      cbv beta iota. rewrite (bind_some _ _ _ _ _ D).
      rewrite (bind_some _ _ _ _ _ (pop_type_non_any c1 label T1 Hlt Hna)).
      reflexivity.
    + replace (_ - _ <? 1) with true by (symmetry; apply Z.ltb_lt; lia).
      reflexivity.
  - intros Hany.
    assert (K : check_type_stack_limit 1 "drop" c = Some (WASM_OK, c))
      by (unfold check_type_stack_limit, bind, get; rewrite Hany; reflexivity).
    assert (La : last (type_stack c1) WASM_TYPE_VOID = WASM_TYPE_ANY).
    { unfold top_type_is_any in Hany. apply andb_prop in Hany as [_ Ha].
      apply type_eqb_spec in Ha. exact Ha. }
    unfold on_drop_expr. rewrite (bind_some _ _ _ _ _ K). cbv beta iota.
    rewrite (bind_some _ _ _ _ _ D).
    unfold pop_type, top_type, bind, get, ret, assert_fail. rewrite T1.
    split; intros H.
    + replace (type_stack_limit label <? Z.of_nat (length (type_stack c1))) with true
        by (symmetry; apply Z.ltb_lt; exact H).
      rewrite La. reflexivity.
    + replace (type_stack_limit label <? Z.of_nat (length (type_stack c1))) with false
        by (symmetry; apply Z.ltb_ge; change (type_stack c1) with (type_stack c); lia).
      reflexivity.
Qed.

(** For a natural alignment [2^k] with [k < 32], [check_align] accepts an
    alignment exponent exactly when it is at most [k]. *)
Theorem check_align_pow a k c :
  0 <= a -> 0 <= k < 32 ->
  check_align a (2 ^ k) c =
    if a <=? k then Some (WASM_OK, c)
    else Some (WASM_ERROR, set_errors (errors c ++
                 ["alignment must not be larger than natural alignment"%string]) c).
Proof.
  intros Ha Hk. unfold check_align. rewrite Z.shiftl_1_l.
  destruct (Z.leb_spec a k) as [Hle|Hgt].
  - replace (32 <=? a) with false by (symmetry; apply Z.leb_gt; lia).
    replace (2 ^ k <? 2 ^ a) with false
      by (symmetry; apply Z.ltb_ge; apply Z.pow_le_mono_r; lia).
    reflexivity.
  - destruct (Z.leb_spec 32 a); [reflexivity|].
    replace (2 ^ k <? 2 ^ a) with true
      by (symmetry; apply Z.ltb_lt; apply Z.pow_lt_mono_r; lia).
    reflexivity.
Qed.

Lemma not_in_any_not_any c :
  ~ In WASM_TYPE_ANY (type_stack c) -> top_type_is_any c = false.
Proof.
  intros H. apply top_type_is_any_last. destruct (type_stack c) as [|t ts] eqn:E.
  - discriminate.
  - intros L. apply H. assert (Hne : t :: ts <> []) by discriminate.
    destruct (exists_last Hne) as (l' & x & Ex). rewrite Ex in L |- *.
    rewrite last_last in L. subst x. apply in_or_app. right. left. reflexivity.
Qed.

Lemma not_in_any_app ts us :
  ~ In WASM_TYPE_ANY (ts ++ us) -> ~ In WASM_TYPE_ANY ts.
Proof. intros H Hin. apply H, in_or_app. left. exact Hin. Qed.

Lemma pop_and_check_2_types_cases e1 e2 d c label :
  ~ In WASM_TYPE_ANY (type_stack c) -> top_label c = Some (label, c) ->
  0 <= type_stack_limit label <= Z.of_nat (length (type_stack c)) ->
  Z.of_nat (length (type_stack c)) < 2 ^ 32 ->
  (Z.of_nat (length (type_stack c)) - type_stack_limit label < 2 ->
   pop_and_check_2_types e1 e2 d c =
     Some (WASM_ERROR, set_errors (errors c ++
             [String.append "type stack size too small at " d]) c)) /\
  (forall pre a1 a2, type_stack c = pre ++ [a1; a2] ->
   type_stack_limit label <= Z.of_nat (length pre) ->
   exists r errs, pop_and_check_2_types e1 e2 d c = Some (r, set_errors errs (set_type_stack pre c)) /\
     (r = WASM_OK <-> e1 = a1 /\ e2 = a2)).
Proof.
  intros Hna Htop Hl Hsz. pose proof (not_in_any_not_any c Hna) as Hany. split.
  - intros Hlt. unfold pop_and_check_2_types, bind at 1, get. rewrite Hany.
    unfold bind at 1. rewrite (check_type_stack_limit_cases 2 d c label Hany Htop Hl Hsz).
    replace (_ - _ <? 2) with true by (symmetry; apply Z.ltb_lt; lia). reflexivity.
  - intros pre a1 a2 E Hpre.
    unfold pop_and_check_2_types, bind at 1, get. rewrite Hany.
    unfold bind at 1. rewrite (check_type_stack_limit_cases 2 d c label Hany Htop Hl Hsz).
    assert (Len : length (type_stack c) = (length pre + 2)%nat)
      by (rewrite E, length_app; reflexivity).
    replace (_ - _ <? 2) with false by (symmetry; apply Z.ltb_ge; lia).
    cbn [WASM_SUCCEEDED].
    assert (La2 : last (type_stack c) WASM_TYPE_VOID = a2).
    { rewrite E. change [a1; a2] with ([a1] ++ [a2]). rewrite app_assoc. apply last_last. }
    assert (Na2 : a2 <> WASM_TYPE_ANY).
    { intros ->. apply Hna. rewrite E. apply in_or_app. right. right. left. reflexivity. }
    assert (Na1 : a1 <> WASM_TYPE_ANY).
    { intros ->. apply Hna. rewrite E. apply in_or_app. right. left. reflexivity. }
    rewrite (bind_some _ _ _ _ _ (pop_type_non_any c label Htop ltac:(lia) ltac:(congruence))).
    rewrite La2.
    assert (R1 : removelast (type_stack c) = pre ++ [a1]).
    { rewrite E. change [a1; a2] with ([a1] ++ [a2]). rewrite app_assoc. apply removelast_last. }
    rewrite R1.
    set (c1 := set_type_stack (pre ++ [a1]) c).
    assert (T1 : top_label c1 = Some (label, c1)) by (apply (top_label_same_labels c); auto).
    assert (La1 : last (type_stack c1) WASM_TYPE_VOID = a1) by apply last_last.
    rewrite (bind_some _ _ _ _ _ (pop_type_non_any c1 label T1
               ltac:(cbn; rewrite length_app; cbn; lia) ltac:(congruence))).
    rewrite La1. change (removelast (type_stack c1)) with (removelast (pre ++ [a1])).
    rewrite removelast_last.
    set (c2 := set_type_stack pre c1).
    assert (A2 : top_type_is_any c2 = false).
    { apply not_in_any_not_any. cbn. apply (not_in_any_app pre [a1; a2]). congruence. }
    unfold bind at 1. rewrite (check_type_cases e1 a1 d c2 A2).
    destruct (type_eqb e1 a1) eqn:Q1.
    + cbv beta iota. unfold bind at 1. rewrite (check_type_cases e2 a2 d c2 A2).
      destruct (type_eqb e2 a2) eqn:Q2.
      * exists WASM_OK, (errors c). split; [reflexivity|].
        apply type_eqb_spec in Q1, Q2. tauto.
      * eexists WASM_ERROR, _. split; [reflexivity|].
        split; [discriminate|]. intros [_ Q]. apply type_eqb_spec in Q. congruence.
    + eexists WASM_ERROR, _. split; [reflexivity|].
      split; [discriminate|]. intros [Q _]. apply type_eqb_spec in Q. congruence.
Qed.

(** [pop_and_check_2_types] passes in unreachable code and changes
    nothing. When the stack holds no "any" marker, it reports an error and
    keeps the stack when fewer than two values are above the top label's
    limit; otherwise it pops both values, also on a type mismatch, and
    succeeds exactly when both match. *)
Theorem pop_and_check_2_types_spec e1 e2 d c :
  (top_type_is_any c = true -> pop_and_check_2_types e1 e2 d c = Some (WASM_OK, c)) /\
  (forall label, ~ In WASM_TYPE_ANY (type_stack c) -> top_label c = Some (label, c) ->
   0 <= type_stack_limit label <= Z.of_nat (length (type_stack c)) ->
   Z.of_nat (length (type_stack c)) < 2 ^ 32 ->
   (Z.of_nat (length (type_stack c)) - type_stack_limit label < 2 ->
    pop_and_check_2_types e1 e2 d c =
      Some (WASM_ERROR, set_errors (errors c ++
              [String.append "type stack size too small at " d]) c)) /\
   (forall pre a1 a2, type_stack c = pre ++ [a1; a2] ->
    type_stack_limit label <= Z.of_nat (length pre) ->
    exists r errs, pop_and_check_2_types e1 e2 d c = Some (r, set_errors errs (set_type_stack pre c)) /\
      (r = WASM_OK <-> e1 = a1 /\ e2 = a2))).
Proof.
  split.
  - intros Hany. unfold pop_and_check_2_types, bind, get. rewrite Hany. reflexivity.
  - intros label. apply pop_and_check_2_types_cases.
Qed.

Lemma check_type_stack_limit_exact_cases e d c label :
  top_type_is_any c = false -> top_label c = Some (label, c) ->
  0 <= type_stack_limit label <= Z.of_nat (length (type_stack c)) ->
  Z.of_nat (length (type_stack c)) < 2 ^ 32 ->
  check_type_stack_limit_exact e d c =
    if e =? Z.of_nat (length (type_stack c)) - type_stack_limit label
    then Some (WASM_OK, c)
    else Some (WASM_ERROR, set_errors (errors c ++
                 [String.append "type stack at end of " d]) c).
Proof.
  intros Hany Htop Hl Hsz. unfold check_type_stack_limit_exact, ctx_type_stack_limit.
  unfold bind at 1, get. rewrite Hany.
  rewrite (bind_some _ _ _ _ _ (bind_some _ _ _ _ _ Htop)).
  unfold ret at 1. cbv beta.
  rewrite Z.mod_small by lia.
  destruct (e =? _); reflexivity.
Qed.

Lemma fixup_top_label_none v c :
  label_stack c <> [] -> Z.of_nat (length (label_stack c)) <= 2 ^ 32 ->
  (length (depth_fixups c) < length (label_stack c))%nat ->
  fixup_top_label v c = Some (WASM_OK, c).
Proof.
  intros Hne Hsz Hfx.
  assert (Hl : (length (label_stack c) <> 0)%nat) by (destruct (label_stack c); cbn; congruence).
  unfold fixup_top_label, bind, get. rewrite u32_small by lia.
  replace (Z.of_nat (length (depth_fixups c)) <=? _) with true
    by (symmetry; apply Z.leb_le; lia).
  reflexivity.
Qed.

Lemma reset_type_stack_to_limit_spec c label :
  top_label c = Some (label, c) ->
  0 <= type_stack_limit label <= Z.of_nat (length (type_stack c)) ->
  reset_type_stack_to_limit c =
    Some (tt, set_type_stack (firstn (Z.to_nat (type_stack_limit label)) (type_stack c)) c).
Proof.
  intros Htop Hl. unfold reset_type_stack_to_limit, ctx_type_stack_limit.
  rewrite (bind_some _ _ _ _ _ (bind_some _ _ _ _ _ Htop)).
  unfold ret. cbv beta. unfold set_type_stack_size, bind, get, modify.
  replace (Z.to_nat (type_stack_limit label) <=? length (type_stack c))%nat with true
    by (symmetry; apply Nat.leb_le; lia).
  reflexivity.
Qed.

Lemma top_label_nonempty c l : top_label c = Some (l, c) -> label_stack c <> [].
Proof. intros H E. rewrite (top_label_empty c E) in H. discriminate. Qed.

Lemma not_in_any_firstn n ts : ~ In WASM_TYPE_ANY ts -> ~ In WASM_TYPE_ANY (firstn n ts).
Proof. intros H Hin. apply H. rewrite <- (firstn_skipn n ts). apply in_or_app. left. exact Hin. Qed.

Lemma check_type_stack_limit_exact_any e d c :
  top_type_is_any c = true -> check_type_stack_limit_exact e d c = Some (WASM_OK, c).
Proof. intros H. unfold check_type_stack_limit_exact, bind, get. rewrite H. reflexivity. Qed.

Lemma push_types_gen types c :
  Forall (fun t => t <> WASM_TYPE_VOID /\ t <> WASM_TYPE_ANY) types ->
  push_types types c =
    Some (tt, set_type_stack (type_stack c ++ (if top_type_is_any c then [] else types)) c).
Proof.
  intros Hf. destruct (top_type_is_any c) eqn:A.
  - unfold push_types, bind, get. rewrite A, app_nil_r. destruct c; reflexivity.
  - apply push_types_spec; assumption.
Qed.

Lemma end_label_tail label c b fx :
  top_label c = Some (label, c) ->
  Z.of_nat (length (label_stack c)) <= 2 ^ 32 ->
  Forall (fun t => t <> WASM_TYPE_VOID /\ t <> WASM_TYPE_ANY) (sig label) ->
  0 <= type_stack_limit label <= Z.of_nat (length (type_stack c)) ->
  fixup_top_label (istream_offset c) c =
    Some (WASM_OK, set_depth_fixups fx (set_istream_buf b c)) ->
  (c0 <- get ;;
   fixup_top_label (istream_offset c0) ;;
   reset_type_stack_to_limit ;;
   push_types (sig label) ;;
   pop_label ;;
   ret WASM_OK) c =
  Some (WASM_OK,
        let base := firstn (Z.to_nat (type_stack_limit label)) (type_stack c) in
        set_depth_fixups (firstn (length (label_stack c) - 1) fx)
          (set_label_stack (removelast (label_stack c))
            (set_type_stack
               (base ++ (if top_type_is_any (set_type_stack base c) then [] else sig label))
               (set_istream_buf b c)))).
Proof.
  intros Htop Hls Hf Hl F.
  pose proof (top_label_nonempty c label Htop) as Hne.
  unfold bind at 1, get. rewrite (bind_some _ _ _ _ _ F).
  set (c1 := set_depth_fixups fx (set_istream_buf b c)).
  assert (T1 : top_label c1 = Some (label, c1)) by (apply (top_label_same_labels c); auto).
  rewrite (bind_some _ _ _ _ _ (reset_type_stack_to_limit_spec c1 label T1 Hl)).
  set (c2 := set_type_stack _ c1).
  rewrite (bind_some _ _ _ _ _ (push_types_gen (sig label) c2 Hf)).
  set (c3 := set_type_stack _ c2).
  rewrite (bind_some _ _ _ _ _ (pop_label_ok c3 Hne Hls)).
  reflexivity.
Qed.

Lemma end_label_gen label desc c :
  top_label c = Some (label, c) ->
  Z.of_nat (length (label_stack c)) <= 2 ^ 32 ->
  Forall (fun t => t <> WASM_TYPE_VOID /\ t <> WASM_TYPE_ANY) (sig label) ->
  0 <= type_stack_limit label <= Z.of_nat (length (type_stack c)) ->
  Z.of_nat (length (type_stack c)) < 2 ^ 32 ->
  exists r c', end_label label desc c = Some (r, c') /\
    (r = WASM_OK <->
       top_type_is_any c = true \/
       (Z.of_nat (length (type_stack c)) - type_stack_limit label = Z.of_nat (length (sig label)) /\
        skipn (Z.to_nat (type_stack_limit label)) (type_stack c) = rev (sig label))) /\
    (r = WASM_OK -> exists b fx,
       fixup_top_label (istream_offset c) c =
         Some (WASM_OK, set_depth_fixups fx (set_istream_buf b c)) /\
       c' = let base := firstn (Z.to_nat (type_stack_limit label)) (type_stack c) in
            set_depth_fixups (firstn (length (label_stack c) - 1) fx)
              (set_label_stack (removelast (label_stack c))
                (set_type_stack
                   (base ++ (if top_type_is_any (set_type_stack base c) then [] else sig label))
                   (set_istream_buf b c)))) /\
    (r = WASM_ERROR -> exists msg, c' = set_errors (errors c ++ [msg]) c).
Proof.
  intros Htop Hls Hf Hl Hsz.
  pose proof (top_label_nonempty c label Htop) as Hne.
  destruct (fixup_top_label_gen (istream_offset c) c Hne Hls) as (b & fx & F & _).
  pose proof (end_label_tail label c b fx Htop Hls Hf Hl F) as Tail.
  unfold end_label.
  destruct (top_type_is_any c) eqn:A.
  - rewrite (bind_some _ _ _ _ _ (check_n_types_any _ desc c A)). cbv beta iota.
    rewrite (bind_some _ _ _ _ _ (check_type_stack_limit_exact_any _ desc c A)). cbv beta iota.
    rewrite Tail. eexists WASM_OK, _. split; [reflexivity|].
    split; [split; [intros _; left; reflexivity|reflexivity]|].
    split; [|discriminate]. intros _. exists b, fx. split; [exact F|reflexivity].
  - destruct (check_n_types_cases (sig label) desc c label A Htop Hl Hsz)
      as (r1 & c1 & H1 & O1 & E1 & I1).
    rewrite (bind_some _ _ _ _ _ H1). destruct r1; cbv beta iota.
    + specialize (O1 eq_refl). subst c1.
      unfold bind at 1. rewrite (check_type_stack_limit_exact_cases _ desc c label A Htop Hl Hsz).
      destruct (Z.eqb_spec (Z.of_nat (length (sig label)))
                  (Z.of_nat (length (type_stack c)) - type_stack_limit label)) as [Heq|Hneq];
        cbv beta iota.
      * rewrite Tail. eexists WASM_OK, _. split; [reflexivity|]. split.
        -- split; [intros _; right|reflexivity]. split; [lia|].
           destruct (proj1 I1 eq_refl) as [_ E].
           replace (length (type_stack c) - length (sig label))%nat
             with (Z.to_nat (type_stack_limit label)) in E by lia. exact E.
        -- split; [|discriminate]. intros _. exists b, fx. split; [exact F|reflexivity].
      * eexists WASM_ERROR, _. split; [reflexivity|]. split.
        -- split; [discriminate|]. intros [E|[E _]]; [discriminate|lia].
        -- split; [discriminate|]. intros _. eexists. reflexivity.
    + unfold ret. eexists WASM_ERROR, _. split; [reflexivity|]. split.
      * split; [discriminate|]. intros [E|[E1' E2]]; [discriminate|]. apply I1. split; [lia|].
        replace (length (type_stack c) - length (sig label))%nat
          with (Z.to_nat (type_stack_limit label)) by lia. exact E2.
      * split; [discriminate|]. intros _. exact (E1 eq_refl).
Qed.

(** [end] of a block or loop succeeds exactly when the code is unreachable
    (the "any" marker on top of the stack) or the values above the
    label's limit are its result types in reverse order. It then writes
    the current offset into the branch placeholders recorded for the
    label, pops the label, and cuts the stack to the label's limit
    followed by the result types (pushed only when the cut stack is not
    topped by the "any" marker). On failure only an error message is
    added. *)
Theorem on_end_expr_block_loop c label :
  top_label c = Some (label, c) ->
  label_type label = LABEL_TYPE_BLOCK \/ label_type label = LABEL_TYPE_LOOP ->
  Z.of_nat (length (label_stack c)) <= 2 ^ 32 ->
  Forall (fun t => t <> WASM_TYPE_VOID /\ t <> WASM_TYPE_ANY) (sig label) ->
  0 <= type_stack_limit label <= Z.of_nat (length (type_stack c)) ->
  Z.of_nat (length (type_stack c)) < 2 ^ 32 ->
  exists r c', on_end_expr c = Some (r, c') /\
    (r = WASM_OK <->
       top_type_is_any c = true \/
       (Z.of_nat (length (type_stack c)) - type_stack_limit label = Z.of_nat (length (sig label)) /\
        skipn (Z.to_nat (type_stack_limit label)) (type_stack c) = rev (sig label))) /\
    (r = WASM_OK ->
       label_stack c' = removelast (label_stack c) /\
       type_stack c' =
         firstn (Z.to_nat (type_stack_limit label)) (type_stack c) ++
         (if top_type_is_any (set_type_stack
                                (firstn (Z.to_nat (type_stack_limit label)) (type_stack c)) c)
          then [] else sig label) /\
       istream_offset c' = istream_offset c /\
       ((length (depth_fixups c) < length (label_stack c))%nat ->
        istream_buf c' = istream_buf c) /\
       (forall fixups,
          nth_error (depth_fixups c) (length (label_stack c) - 1) = Some fixups ->
          Forall (fun f => 0 <= f /\ f + 4 <= Z.of_nat (length (istream_buf c))) fixups ->
          ForallOrdPairs slot_disjoint fixups ->
          Forall (fun f => forall k, (k < 4)%nat ->
            nth_error (istream_buf c') (Z.to_nat f + k) =
            nth_error (le_bytes 4 (u32 (istream_offset c))) k) fixups)) /\
    (r = WASM_ERROR -> exists msg, c' = set_errors (errors c ++ [msg]) c).
Proof.
  intros Htop Ht Hls Hf Hl Hsz.
  pose proof (top_label_nonempty c label Htop) as Hne.
  unfold on_end_expr. rewrite (bind_some _ _ _ _ _ Htop).
  destruct Ht as [E|E]; rewrite E;
  match goal with
  | |- context [end_label label ?d c] =>
      destruct (end_label_gen label d c Htop Hls Hf Hl Hsz) as (r & c' & H1 & H2 & H3 & H4)
  end;
  exists r, c'; (split; [exact H1|]); (split; [exact H2|]); (split; [|exact H4]);
  intros R; destruct (H3 R) as (b & fx & F & ->); cbn zeta;
  (split; [reflexivity|]); (split; [reflexivity|]); (split; [reflexivity|]); split.
  all: try solve [
    intros Hfx; destruct (fixup_top_label_gen (istream_offset c) c Hne Hls) as (b' & fx' & F' & N');
    destruct (N' Hfx) as [B' _]; rewrite F in F'; injection F' as E1 E2; cbn; congruence].
  all: intros fixups Hfx Hb Hd;
    destruct (fixup_top_label_ok c (istream_offset c) fixups Hne Hls Hfx Hb Hd)
      as (c'' & F'' & _ & _ & _ & S & _);
    rewrite F in F''; injection F'' as <-; exact S.
Qed.

Lemma check_type_same e d c : check_type e e d c = Some (WASM_OK, c).
Proof.
  unfold check_type, bind, get. destruct (top_type_is_any c); [reflexivity|].
  replace (type_eqb e e) with true by (symmetry; apply type_eqb_spec; reflexivity).
  reflexivity.
Qed.

Lemma pop_and_check_1_type_top e d c label :
  top_type_is_any c = false -> top_label c = Some (label, c) ->
  0 <= type_stack_limit label < Z.of_nat (length (type_stack c)) ->
  Z.of_nat (length (type_stack c)) < 2 ^ 32 ->
  last (type_stack c) WASM_TYPE_VOID = e -> e <> WASM_TYPE_ANY ->
  pop_and_check_1_type e d c =
    Some (WASM_OK, set_type_stack (removelast (type_stack c)) c).
Proof.
  intros Hany Htop Hl Hsz Hlast He.
  unfold pop_and_check_1_type, bind at 1, get. rewrite Hany.
  unfold bind at 1. rewrite (check_type_stack_limit_cases 1 d c label Hany Htop ltac:(lia) Hsz).
  replace (_ - _ <? 1) with false by (symmetry; apply Z.ltb_ge; lia).
  cbn [WASM_SUCCEEDED].
  rewrite (bind_some _ _ _ _ _ (pop_type_non_any c label Htop ltac:(lia) ltac:(congruence))).
  rewrite Hlast, (bind_some _ _ _ _ _ (check_type_same e d _)). reflexivity.
Qed.

Lemma on_if_expr_gen s c label :
  top_label c = Some (label, c) ->
  0 <= type_stack_limit label <= Z.of_nat (length (type_stack c)) ->
  Z.of_nat (length (type_stack c)) < 2 ^ 32 ->
  top_type_is_any c = true \/
  (type_stack_limit label < Z.of_nat (length (type_stack c)) /\
   last (type_stack c) WASM_TYPE_VOID = WASM_TYPE_I32) ->
  istream_at_end c -> istream_offset c + 5 < 2 ^ 32 ->
  let ts' := if top_type_is_any c then type_stack c else removelast (type_stack c) in
  on_if_expr s c =
    Some (WASM_OK,
          set_label_stack (label_stack c ++
            [if_label s (Z.of_nat (length ts')) (istream_offset c + 1)])
          (set_type_stack ts'
            (emitted c ([opcode_value WASM_OPCODE_BR_UNLESS] ++ le_bytes 4 UINT32_MAX)))).
Proof.
  intros Htop Hl Hsz Hc Hend Hoff ts'.
  assert (Lts : (length ts' <= length (type_stack c))%nat)
    by (unfold ts'; destruct (top_type_is_any c); [lia|apply length_removelast_le]).
  assert (S1 : check_type_stack_limit 1 "if" c = Some (WASM_OK, c)).
  { destruct (top_type_is_any c) eqn:A.
    - unfold check_type_stack_limit, bind, get. rewrite A. reflexivity.
    - destruct Hc as [X|[H1 H2]]; [discriminate|].
      rewrite (check_type_stack_limit_cases 1 "if" c label A Htop ltac:(lia) Hsz).
      replace (_ - _ <? 1) with false by (symmetry; apply Z.ltb_ge; lia). reflexivity. }
  assert (S2 : pop_and_check_1_type WASM_TYPE_I32 "if" c = Some (WASM_OK, set_type_stack ts' c)).
  { unfold ts'. destruct (top_type_is_any c) eqn:A.
    - unfold pop_and_check_1_type, bind, get. rewrite A. destruct c; reflexivity.
    - destruct Hc as [X|[H1 H2]]; [discriminate|].
      exact (pop_and_check_1_type_top WASM_TYPE_I32 "if" c label A Htop ltac:(lia) Hsz H2
               ltac:(discriminate)). }
  unfold on_if_expr, bind at 1. rewrite S1. cbv beta iota.
  unfold bind at 1. rewrite S2. cbv beta iota.
  set (c1 := set_type_stack ts' c).
  assert (E1 : istream_at_end c1) by exact Hend.
  unfold emit_opcode. unfold bind at 1.
  rewrite (emit_data_ok c1 (le_bytes 1 (opcode_value WASM_OPCODE_BR_UNLESS)) E1
             ltac:(rewrite le_bytes_length; change (istream_offset c1) with (istream_offset c); lia)).
  cbv beta iota.
  change (le_bytes 1 (opcode_value WASM_OPCODE_BR_UNLESS)) with [opcode_value WASM_OPCODE_BR_UNLESS].
  set (c2 := emitted c1 _).
  unfold bind at 1, get. unfold emit_i32. unfold bind at 1.
  rewrite (u32_small WASM_INVALID_OFFSET) by (unfold WASM_INVALID_OFFSET, UINT32_MAX; lia).
  rewrite (emit_data_ok c2 (le_bytes 4 WASM_INVALID_OFFSET) (emitted_at_end c1 _ E1)
             ltac:(rewrite le_bytes_length; unfold c2; rewrite emitted_offset;
                   change (istream_offset c1) with (istream_offset c); cbn; lia)).
  cbv beta iota. unfold push_label, bind, modify, ret.
  unfold c2. rewrite emitted_emitted.
  change (type_stack (emitted c1 ?d)) with ts'.
  rewrite u32_small by lia. rewrite emitted_offset.
  change (istream_offset c1) with (istream_offset c).
  change (label_stack (emitted c1 ?d)) with (label_stack c).
  reflexivity.
Qed.

(** [if] with an [i32] on the stack pops it, emits [BR_UNLESS] with an
    invalid placeholder target, and pushes an [IF] label whose fixup
    offset is the placeholder's position. *)
Theorem on_if_expr_spec s c label :
  ~ In WASM_TYPE_ANY (type_stack c) -> top_label c = Some (label, c) ->
  0 <= type_stack_limit label < Z.of_nat (length (type_stack c)) ->
  Z.of_nat (length (type_stack c)) < 2 ^ 32 ->
  last (type_stack c) WASM_TYPE_VOID = WASM_TYPE_I32 ->
  istream_at_end c -> istream_offset c + 5 < 2 ^ 32 ->
  on_if_expr s c =
    Some (WASM_OK,
          set_label_stack (label_stack c ++
            [if_label s (Z.of_nat (length (type_stack c)) - 1) (istream_offset c + 1)])
          (set_type_stack (removelast (type_stack c))
            (emitted c ([opcode_value WASM_OPCODE_BR_UNLESS] ++ le_bytes 4 UINT32_MAX)))).
Proof.
  intros Hna Htop Hl Hsz Hlast Hend Hoff.
  pose proof (not_in_any_not_any c Hna) as Hany.
  rewrite (on_if_expr_gen s c label Htop ltac:(lia) Hsz (or_intror (conj (proj2 Hl) Hlast))
             Hend Hoff).
  cbv zeta. rewrite Hany.
  rewrite length_removelast by (intros E; rewrite E in Hl; cbn in Hl; lia).
  replace (Z.of_nat (length (type_stack c) - 1)) with (Z.of_nat (length (type_stack c)) - 1)
    by lia.
  reflexivity.
Qed.

Lemma write_data_overwrite_tail a p d :
  length p = length d ->
  write_data (a ++ p) (Z.of_nat (length a)) d = (WASM_OK, a ++ d).
Proof.
  intros L. unfold write_data. rewrite Nat2Z.id.
  rewrite firstn_app, Nat.sub_diag, firstn_O, app_nil_r, firstn_all.
  rewrite length_app. replace (length a - (length a + length p))%nat with O by lia.
  cbn [repeat app]. rewrite skipn_app, skipn_all2 by lia. cbn [app].
  rewrite skipn_all2 by lia. rewrite app_nil_r. reflexivity.
Qed.

Lemma in_removelast_in {A} (x : A) l : In x (removelast l) -> In x l.
Proof.
  induction l as [|y l IH]; cbn; [tauto|].
  destruct l as [|z l]; [tauto|]. intros [H|H]; [left; exact H|right; apply IH, H].
Qed.

(** An [if] with an empty signature directly followed by [end] succeeds
    when the code is unreachable (the "any" marker on top of the stack),
    or when an [i32] lies above the current label's limit. It leaves the
    code [BR_UNLESS] whose target is patched to the offset just after it,
    and restores the label stack. The condition is popped in reachable
    code; in unreachable code the stack is unchanged. *)
Theorem if_end_patches_br_unless c label :
  top_label c = Some (label, c) ->
  0 <= type_stack_limit label <= Z.of_nat (length (type_stack c)) ->
  Z.of_nat (length (type_stack c)) < 2 ^ 32 ->
  top_type_is_any c = true \/
  (type_stack_limit label < Z.of_nat (length (type_stack c)) /\
   last (type_stack c) WASM_TYPE_VOID = WASM_TYPE_I32) ->
  Z.of_nat (length (label_stack c)) + 1 <= 2 ^ 32 ->
  (length (depth_fixups c) <= length (label_stack c))%nat ->
  istream_at_end c -> istream_offset c + 5 < 2 ^ 32 ->
  (on_if_expr [] ;; on_end_expr) c =
    Some (WASM_OK,
          set_type_stack
            (if top_type_is_any c then type_stack c else removelast (type_stack c))
            (emitted c ([opcode_value WASM_OPCODE_BR_UNLESS] ++
                        le_bytes 4 (istream_offset c + 5)))).
Proof.
  intros Htop Hl Hsz Hc Hls Hfx Hend Hoff.
  rewrite (bind_some _ _ _ _ _ (on_if_expr_gen [] c label Htop Hl Hsz Hc Hend Hoff)).
  set (ts' := if top_type_is_any c then type_stack c else removelast (type_stack c)).
  assert (Lts : (length ts' <= length (type_stack c))%nat)
    by (unfold ts'; destruct (top_type_is_any c); [lia|apply length_removelast_le]).
  set (L := if_label [] (Z.of_nat (length ts')) (istream_offset c + 1)).
  set (D := [opcode_value WASM_OPCODE_BR_UNLESS] ++ le_bytes 4 UINT32_MAX).
  set (c1 := set_label_stack (label_stack c ++ [L]) (set_type_stack ts' (emitted c D))).
  assert (Ne1 : label_stack c1 <> []) by (cbn; destruct (label_stack c); discriminate).
  assert (Ls1 : length (label_stack c1) = (length (label_stack c) + 1)%nat)
    by (cbn; rewrite length_app; reflexivity).
  destruct (top_label_ok c1 Ne1 ltac:(rewrite Ls1; lia)) as (l1 & N1 & T1).
  replace (length (label_stack c1) - 1)%nat with (length (label_stack c)) in N1 by lia.
  cbn [label_stack set_label_stack c1] in N1. rewrite nth_error_app2, Nat.sub_diag in N1 by lia.
  cbn in N1. injection N1 as <-.
  unfold on_end_expr. rewrite (bind_some _ _ _ _ _ T1). cbn [label_type L if_label].
  unfold bind at 1, get.
  assert (LD : length D = 5%nat) by reflexivity.
  assert (O1 : istream_offset c1 = istream_offset c + 5)
    by (change (istream_offset c1) with (istream_offset c + Z.of_nat (length D));
        rewrite LD; reflexivity).
  unfold bind at 1. rewrite O1. unfold emit_i32_at.
  rewrite emit_data_at_eq. cbv beta iota.
  rewrite (u32_small (istream_offset c + 5)) by (unfold istream_at_end in Hend; lia).
  assert (B1 : istream_buf c1 = (istream_buf c ++ [opcode_value WASM_OPCODE_BR_UNLESS]) ++
                                 le_bytes 4 UINT32_MAX)
    by (change (istream_buf c1) with (istream_buf c ++ D); unfold D; rewrite app_assoc; reflexivity).
  change (fixup_offset L) with (istream_offset c + 1).
  rewrite B1.
  replace (istream_offset c + 1)
    with (Z.of_nat (length (istream_buf c ++ [opcode_value WASM_OPCODE_BR_UNLESS])))
    by (rewrite length_app; unfold istream_at_end in Hend; cbn; lia).
  rewrite write_data_overwrite_tail by (rewrite !le_bytes_length; reflexivity).
  cbn [snd].
  set (c2 := set_istream_buf _ c1).
  assert (T2 : top_label c2 = Some (L, c2)) by (apply (top_label_same_labels c1); auto).
  assert (Ne2 : label_stack c2 <> []) by exact Ne1.
  assert (Ls2 : Z.of_nat (length (label_stack c2)) <= 2 ^ 32)
    by (change (label_stack c2) with (label_stack c1); rewrite Ls1; lia).
  assert (Hl2 : 0 <= type_stack_limit L <= Z.of_nat (length (type_stack c2))) by (cbn; lia).
  destruct (end_label_gen L "if true branch" c2 T2 Ls2 (Forall_nil _) Hl2 ltac:(cbn; lia))
    as (r & c' & E & I & K & _).
  rewrite E.
  assert (R : r = WASM_OK).
  { apply I. right. cbn. split; [lia|].
    rewrite skipn_all2; [reflexivity|]. rewrite Nat2Z.id. lia. }
  subst r. destruct (K eq_refl) as (b & fx & F & ->).
  destruct (fixup_top_label_gen (istream_offset c2) c2 Ne2 Ls2) as (b' & fx' & F' & N').
  destruct (N' ltac:(change (depth_fixups c2) with (depth_fixups c);
                     change (label_stack c2) with (label_stack c1); lia)) as [B' X'].
  rewrite F in F'. injection F' as Efx Eb. subst b' fx'. cbv zeta.
  change (label_stack c2) with (label_stack c ++ [L]).
  change (type_stack c2) with ts'.
  change (type_stack_limit L) with (Z.of_nat (length ts')).
  change (sig L) with (@nil WasmType).
  rewrite removelast_last, Nat2Z.id, firstn_all, length_app. cbn [length].
  replace (length (label_stack c) + 1 - 1)%nat with (length (label_stack c)) by lia.
  rewrite B', X'. change (depth_fixups c2) with (depth_fixups c).
  rewrite firstn_all2 by lia.
  destruct (top_type_is_any (set_type_stack ts' c2)); rewrite app_nil_r;
  unfold c2, c1, emitted; rewrite <- app_assoc; reflexivity.
Qed.

Lemma stack_kept_refl c : stack_kept c c.
Proof. repeat split. Qed.

Lemma stack_kept_trans a b d : stack_kept a b -> stack_kept b d -> stack_kept a d.
Proof. unfold stack_kept. intros (? & ? & ?) (? & ? & ?). repeat split; congruence. Qed.

Create HintDb stacks.
#[local] Hint Resolve stack_kept_refl stack_kept_trans : stacks.

Ltac stacks :=
  repeat match goal with
  | |- forall _, _ => intro
  | |- preserves _ (bind _ _) => apply (preserves_bind _ stack_kept_trans)
  | |- preserves _ (ret _) => apply (preserves_ret _ stack_kept_refl)
  | |- preserves _ get => apply (preserves_get _ stack_kept_refl)
  | |- preserves _ assert_fail => apply preserves_fail
  | |- preserves _ (if ?b then _ else _) => destruct b
  | |- preserves _ (match ?e with _ => _ end) => destruct e
  | |- _ => solve [eauto with stacks]
  end.

Lemma modify_stack_kept f :
  (forall c, stack_kept c (f c)) ->
  preserves stack_kept (modify f).
Proof. intros Hf c x c' H. injection H as _ <-. apply Hf. Qed.

Lemma print_error_stack msg : preserves stack_kept (print_error msg).
Proof. apply modify_stack_kept. repeat split. Qed.
#[local] Hint Resolve print_error_stack : stacks.

Lemma emit_data_at_stack o d : preserves stack_kept (emit_data_at o d).
Proof. intros c x c' H. rewrite emit_data_at_eq in H. injection H as _ <-. repeat split. Qed.
#[local] Hint Resolve emit_data_at_stack : stacks.

Lemma emit_data_stack d : preserves stack_kept (emit_data d).
Proof.
  unfold emit_data. stacks. apply modify_stack_kept. repeat split.
Qed.
#[local] Hint Resolve emit_data_stack : stacks.

Lemma emit_drop_keep_stack d k : preserves stack_kept (emit_drop_keep d k).
Proof. unfold emit_drop_keep, emit_opcode, emit_i32, emit_i8. stacks. Qed.
#[local] Hint Resolve emit_drop_keep_stack : stacks.

Lemma append_fixup_stack i : preserves stack_kept (append_fixup i).
Proof. unfold append_fixup. stacks. apply modify_stack_kept. repeat split. Qed.
#[local] Hint Resolve append_fixup_stack : stacks.

Lemma get_label_stack d : preserves stack_kept (get_label d).
Proof. unfold get_label. stacks. Qed.
#[local] Hint Resolve get_label_stack : stacks.

Lemma emit_br_stack d : preserves stack_kept (emit_br d).
Proof. unfold emit_br, emit_br_offset, emit_opcode, emit_i32. stacks. Qed.
#[local] Hint Resolve emit_br_stack : stacks.

Lemma check_type_stack_limit_stack e d : preserves stack_kept (check_type_stack_limit e d).
Proof. unfold check_type_stack_limit, ctx_type_stack_limit, top_label. stacks. Qed.
#[local] Hint Resolve check_type_stack_limit_stack : stacks.

Lemma check_type_stack e a d : preserves stack_kept (check_type e a d).
Proof. unfold check_type. stacks. Qed.
#[local] Hint Resolve check_type_stack : stacks.

Lemma check_n_types_loop_stack e d i n : preserves stack_kept (check_n_types_loop e d i n).
Proof. revert i. induction n as [|n IH]; cbn [check_n_types_loop]; stacks. Qed.
#[local] Hint Resolve check_n_types_loop_stack : stacks.

Lemma check_n_types_stack e d : preserves stack_kept (check_n_types e d).
Proof. unfold check_n_types. stacks. Qed.
#[local] Hint Resolve check_n_types_stack : stacks.

Lemma check_depth_stack d : preserves stack_kept (check_depth d).
Proof. unfold check_depth. stacks. Qed.
#[local] Hint Resolve check_depth_stack : stacks.

Lemma translate_depth_stack d : preserves stack_kept (translate_depth d).
Proof. unfold translate_depth. stacks. Qed.
#[local] Hint Resolve translate_depth_stack : stacks.

Lemma get_label_state d c l c' : get_label d c = Some (l, c') -> c' = c.
Proof.
  unfold get_label, bind, get, ret, assert_fail.
  destruct (_ <? _); [|discriminate]. destruct (nth_error _ _); [|discriminate].
  congruence.
Qed.

Lemma top_label_state c l c' : top_label c = Some (l, c') -> c' = c.
Proof. unfold top_label, bind at 1, get. apply get_label_state. Qed.

Lemma last_not_any c :
  ~ In WASM_TYPE_ANY (type_stack c) -> last (type_stack c) WASM_TYPE_VOID <> WASM_TYPE_ANY.
Proof.
  intros H E. pose proof (not_in_any_not_any c H) as A.
  unfold top_type_is_any in A. rewrite E in A. cbn in A. rewrite andb_true_r in A.
  apply H. destruct (type_stack c) as [|t ts] eqn:Q; [discriminate|].
  rewrite <- E. clear. revert t. induction ts as [|u ts IH]; intros t; [left; reflexivity|].
  right. apply IH.
Qed.

Lemma pop_type_stack_gen c t c' :
  pop_type c = Some (t, c') ->
  type_stack c' = (if type_eqb (last (type_stack c) WASM_TYPE_VOID) WASM_TYPE_ANY
                   then type_stack c else removelast (type_stack c)) /\
  label_stack c' = label_stack c.
Proof.
  intros H. unfold pop_type, top_type in H.
  apply bind_inv in H as (t1 & c1 & H1 & H).
  apply bind_inv in H1 as (l & c2 & H2 & H1). apply top_label_state in H2. subst c2.
  unfold bind, get, ret, assert_fail in H1. destruct (_ <? _); [|discriminate].
  injection H1 as <- <-.
  unfold bind, modify, ret in H.
  destruct (type_eqb (last (type_stack c) WASM_TYPE_VOID) WASM_TYPE_ANY);
    cbn in H; injection H as _ <-; split; reflexivity.
Qed.

Lemma pop_and_check_1_type_stack_gen e d c c' :
  pop_and_check_1_type e d c = Some (WASM_OK, c') ->
  type_stack c' = (if type_eqb (last (type_stack c) WASM_TYPE_VOID) WASM_TYPE_ANY
                   then type_stack c else removelast (type_stack c)) /\
  label_stack c' = label_stack c.
Proof.
  intros H. unfold pop_and_check_1_type, bind at 1, get in H.
  destruct (top_type_is_any c) eqn:A.
  - unfold ret in H. injection H as <-.
    unfold top_type_is_any in A. apply andb_prop in A as [_ A].
    rewrite A. split; reflexivity.
  - apply bind_inv in H as (r1 & c1 & H1 & H).
    destruct (check_type_stack_limit_stack _ _ _ _ _ H1) as (S1 & L1 & _).
    destruct r1; cbn [WASM_SUCCEEDED] in H; [|discriminate].
    apply bind_inv in H as (t & c2 & H2 & H).
    destruct (pop_type_stack_gen c1 t c2 H2) as [S2 L2].
    apply bind_inv in H as (r3 & c3 & H3 & H).
    destruct (check_type_stack _ _ _ _ _ _ H3) as (S3 & L3 & _).
    destruct r3; [|discriminate]. injection H as <-.
    rewrite S3, L3, S2, L2, S1, L1. split; reflexivity.
Qed.

(** A successful [br_if] pops its [i32] condition, except when the any
    marker of unreachable code is on top of the type stack: then nothing
    is popped. The label stack is unchanged. *)
Theorem on_br_if_expr_stack d c c' :
  on_br_if_expr d c = Some (WASM_OK, c') ->
  type_stack c' = (if type_eqb (last (type_stack c) WASM_TYPE_VOID) WASM_TYPE_ANY
                   then type_stack c else removelast (type_stack c)) /\
  label_stack c' = label_stack c.
Proof.
  intros H. unfold on_br_if_expr in H.
  apply bind_inv in H as (r1 & c1 & H1 & H).
  pose proof (check_depth_stack _ _ _ _ H1) as K1.
  destruct r1; [|discriminate].
  apply bind_inv in H as (d2 & c2 & H2 & H).
  pose proof (translate_depth_stack _ _ _ _ H2) as K2.
  apply bind_inv in H as (r3 & c3 & H3 & H).
  destruct r3; [|discriminate].
  destruct (pop_and_check_1_type_stack_gen _ _ _ _ H3) as [S3 L3].
  assert (P : preserves stack_kept
            (label <- get_label d2 ;;
             CHECK_RESULT (match label_type label with
                           | LABEL_TYPE_LOOP => ret WASM_OK
                           | _ => check_n_types (sig label) "br_if"
                           end) ;;
             CHECK_RESULT emit_opcode WASM_OPCODE_BR_UNLESS ;;
             c <- get ;;
             let fixup_br_offset := istream_offset c in
             CHECK_RESULT emit_i32 WASM_INVALID_OFFSET ;;
             CHECK_RESULT emit_br d2 ;;
             c <- get ;;
             CHECK_RESULT emit_i32_at fixup_br_offset (istream_offset c) ;;
             ret WASM_OK)).
  { unfold emit_opcode, emit_i32, emit_i32_at. stacks. }
  destruct (P _ _ _ H) as (S4 & L4 & _).
  destruct K1 as (S1 & L1 & _), K2 as (S2 & L2 & _).
  rewrite S4, S3, S2, S1, L4, L3, L2, L1. split; reflexivity.
Qed.

(** After a successful [br] the type stack is cut to the top label's
    limit and then topped by the any marker, which is not pushed again
    when the cut stack already ends in it above the parameters and
    locals. The label stack is unchanged. *)
Theorem on_br_expr_stack d c c' label :
  top_label c = Some (label, c) ->
  on_br_expr d c = Some (WASM_OK, c') ->
  let base := firstn (Z.to_nat (type_stack_limit label)) (type_stack c) in
  type_stack c' =
    base ++ (if top_type_is_any (set_type_stack base c) then [] else [WASM_TYPE_ANY]) /\
  label_stack c' = label_stack c.
Proof.
  intros Htop H base. unfold on_br_expr in H.
  apply bind_inv in H as (r1 & c1 & H1 & H).
  pose proof (check_depth_stack _ _ _ _ H1) as K1.
  destruct r1; [|discriminate].
  apply bind_inv in H as (d2 & c2 & H2 & H).
  pose proof (translate_depth_stack _ _ _ _ H2) as K2.
  apply bind_inv in H as (l & c3 & H3 & H).
  pose proof (get_label_stack _ _ _ _ H3) as K3.
  apply bind_inv in H as (r4 & c4 & H4 & H).
  assert (K4 : stack_kept c3 c4).
  { revert H4. destruct (label_type l); intros H4;
      first [ exact (check_n_types_stack _ _ _ _ _ H4)
            | injection H4 as _ <-; apply stack_kept_refl ]. }
  destruct r4; [|discriminate].
  apply bind_inv in H as (r5 & c5 & H5 & H).
  pose proof (emit_br_stack _ _ _ _ H5) as K5.
  destruct r5; [|discriminate].
  assert (K : stack_kept c c5)
    by (eapply stack_kept_trans; [exact K1|]; eapply stack_kept_trans; [exact K2|];
        eapply stack_kept_trans; [exact K3|]; eapply stack_kept_trans; [exact K4|exact K5]).
  destruct K as (S & L & P).
  apply bind_inv in H as (u6 & c6 & H6 & H).
  assert (T5 : top_label c5 = Some (label, c5)) by (apply (top_label_same_labels c); auto).
  unfold reset_type_stack_to_limit, ctx_type_stack_limit in H6.
  rewrite (bind_some _ _ _ _ _ (bind_some _ _ _ _ _ T5)) in H6.
  unfold ret, set_type_stack_size, bind, get, modify, assert_fail in H6.
  destruct (_ <=? _)%nat; [|discriminate]. injection H6 as _ <-.
  apply bind_inv in H as (u7 & c7 & H7 & H). injection H as <-.
  set (c6 := set_type_stack _ c5) in H7.
  assert (A6 : top_type_is_any c6 = top_type_is_any (set_type_stack base c))
    by (unfold top_type_is_any, c6, base; cbn; rewrite S, P; reflexivity).
  unfold push_type in H7.
  rewrite (bind_some _ _ _ _ _ (eq_refl : get c6 = Some (c6, c6))) in H7. cbv beta in H7.
  rewrite A6 in H7.
  destruct (top_type_is_any (set_type_stack base c)).
  - unfold ret in H7. injection H7 as _ <-. cbn. rewrite S, app_nil_r.
    split; [reflexivity|exact L].
  - cbn in H7. injection H7 as _ <-. cbn. rewrite S. split; [reflexivity|exact L].
Qed.

(** [br] and [br_if] with a depth at or above the label count report
    an invalid depth and change nothing else. *)
Theorem br_invalid_depth d c :
  Z.of_nat (length (label_stack c)) <= d ->
  on_br_expr d c = Some (WASM_ERROR, set_errors (errors c ++ ["invalid depth"%string]) c) /\
  on_br_if_expr d c = Some (WASM_ERROR, set_errors (errors c ++ ["invalid depth"%string]) c).
Proof.
  intros Hd. unfold on_br_expr, on_br_if_expr, check_depth.
  split; unfold bind at 1 2, get; replace (_ <=? d) with true by (symmetry; apply Z.leb_le; lia);
    reflexivity.
Qed.

(** [else] on a label other than [IF] and [end] on the function label
    report an error and change nothing else. *)
Theorem unexpected_else_end c label :
  top_label c = Some (label, c) ->
  (label_type label <> LABEL_TYPE_IF ->
   on_else_expr c = Some (WASM_ERROR, set_errors (errors c ++ ["unexpected else operator"%string]) c)) /\
  (label_type label = LABEL_TYPE_FUNC ->
   on_end_expr c = Some (WASM_ERROR, set_errors (errors c ++ ["unexpected end operator"%string]) c)).
Proof.
  intros Htop. split; intros Ht.
  - unfold on_else_expr. rewrite (bind_some _ _ _ _ _ Htop).
    destruct (label_type label); [reflexivity|reflexivity|reflexivity|contradiction|reflexivity].
  - unfold on_end_expr. rewrite (bind_some _ _ _ _ _ Htop). rewrite Ht. reflexivity.
Qed.

(** An empty [block ... end] or [loop ... end] leaves the loader state
    unchanged. *)
Theorem block_end_roundtrip c :
  Z.of_nat (length (type_stack c)) < 2 ^ 32 ->
  Z.of_nat (length (label_stack c)) + 1 <= 2 ^ 32 ->
  (length (depth_fixups c) <= length (label_stack c))%nat ->
  (on_block_expr [] ;; on_end_expr) c = Some (WASM_OK, c) /\
  (on_loop_expr [] ;; on_end_expr) c = Some (WASM_OK, c).
Proof.
  intros Hsz Hls Hfx.
  assert (G : forall t o, t = LABEL_TYPE_BLOCK \/ t = LABEL_TYPE_LOOP ->
            (push_label t [] o WASM_INVALID_OFFSET ;; on_end_expr) c = Some (WASM_OK, c)).
  { intros t o Ht. unfold push_label at 1, bind at 1, modify.
    set (L := {| label_type := t; sig := []; type_stack_limit := u32 (Z.of_nat (length (type_stack c)));
                 offset := o; fixup_offset := WASM_INVALID_OFFSET |}).
    set (c1 := set_label_stack (label_stack c ++ [L]) c).
    assert (Ne1 : label_stack c1 <> []) by (cbn; destruct (label_stack c); discriminate).
    assert (Ls1 : length (label_stack c1) = (length (label_stack c) + 1)%nat)
      by (cbn; rewrite length_app; reflexivity).
    assert (Ls1' : Z.of_nat (length (label_stack c1)) <= 2 ^ 32) by (rewrite Ls1; lia).
    destruct (top_label_ok c1 Ne1 Ls1') as (l1 & N1 & T1).
    replace (length (label_stack c1) - 1)%nat with (length (label_stack c)) in N1 by lia.
    cbn [label_stack set_label_stack c1] in N1. rewrite nth_error_app2, Nat.sub_diag in N1 by lia.
    cbn in N1. injection N1 as <-.
    assert (LL : type_stack_limit L = Z.of_nat (length (type_stack c)))
      by (apply u32_small; lia).
    assert (Hl1 : 0 <= type_stack_limit L <= Z.of_nat (length (type_stack c1)))
      by (cbn [type_stack c1 set_label_stack]; rewrite LL; lia).
    assert (D : forall desc, end_label L desc c1 = Some (WASM_OK, c)).
    { intros desc.
      destruct (end_label_gen L desc c1 T1 Ls1' (Forall_nil _) Hl1 Hsz)
        as (r & c' & E & I & K & _).
      rewrite E.
      assert (R : r = WASM_OK).
      { apply I. right. change (type_stack c1) with (type_stack c). rewrite LL.
        split; [cbn; lia|]. rewrite Nat2Z.id, skipn_all2 by lia. reflexivity. }
      subst r. destruct (K eq_refl) as (b & fx & F & ->).
      destruct (fixup_top_label_gen (istream_offset c1) c1 Ne1 Ls1') as (b' & fx' & F' & N').
      destruct (N' ltac:(change (depth_fixups c1) with (depth_fixups c); lia)) as [B' X'].
      rewrite F in F'. injection F' as E1 E2. subst b' fx'. cbv zeta.
      rewrite B', X', Ls1. change (sig L) with (@nil WasmType).
      match goal with
      | |- context [if ?bb then @nil WasmType else @nil WasmType] =>
          replace (if bb then @nil WasmType else @nil WasmType) with (@nil WasmType)
            by (destruct bb; reflexivity)
      end.
      rewrite app_nil_r.
      change (type_stack c1) with (type_stack c). rewrite LL, Nat2Z.id, firstn_all.
      replace (length (label_stack c) + 1 - 1)%nat with (length (label_stack c)) by lia.
      change (depth_fixups c1) with (depth_fixups c). rewrite firstn_all2 by lia.
      change (label_stack c1) with (label_stack c ++ [L]). rewrite removelast_last.
      destruct c; reflexivity. }
    unfold on_end_expr. rewrite (bind_some _ _ _ _ _ T1).
    destruct Ht as [E|E]; cbn [label_type L]; rewrite E; apply D. }
  split.
  - unfold on_block_expr. rewrite <- (G LABEL_TYPE_BLOCK WASM_INVALID_OFFSET (or_introl eq_refl)).
    unfold bind, modify, ret. reflexivity.
  - unfold on_loop_expr. unfold bind at 2, get.
    rewrite <- (G LABEL_TYPE_LOOP (istream_offset c) (or_intror eq_refl)).
    unfold bind, modify, ret. reflexivity.
Qed.

Lemma ForallOrdPairs_app_last {A} (R : A -> A -> Prop) l x :
  ForallOrdPairs R l -> Forall (fun y => R y x) l -> ForallOrdPairs R (l ++ [x]).
Proof.
  induction l as [|y l IH]; intros H F; cbn.
  - constructor; [constructor|constructor].
  - inversion H as [|? ? Hy Hl]; subst. inversion F as [|? ? Fy Fl]; subst.
    constructor; [apply Forall_app; split; [exact Hy|constructor; [exact Fy|constructor]]|].
    apply IH; assumption.
Qed.

(** A branch to the top label at an unknown offset records a 4-byte
    placeholder (adding the label's fixup list first when the label has
    none yet), and [fixup_top_label] later writes the target value into
    it and empties the label's fixup list. *)
Theorem br_fixup_roundtrip c v :
  label_stack c <> [] -> Z.of_nat (length (label_stack c)) <= 2 ^ 32 ->
  Forall (fun f => 0 <= f /\ f + 4 <= istream_offset c)
    (nth (length (label_stack c) - 1) (depth_fixups c) []) ->
  ForallOrdPairs slot_disjoint (nth (length (label_stack c) - 1) (depth_fixups c) []) ->
  istream_at_end c -> istream_offset c + 4 < 2 ^ 32 ->
  exists c', (emit_br_offset (Z.of_nat (length (label_stack c)) - 1) WASM_INVALID_OFFSET ;;
              fixup_top_label v) c = Some (WASM_OK, c') /\
    length (istream_buf c') = (length (istream_buf c) + 4)%nat /\
    istream_offset c' = istream_offset c + 4 /\
    (forall k, (k < 4)%nat ->
       nth_error (istream_buf c') (Z.to_nat (istream_offset c) + k) =
       nth_error (le_bytes 4 (u32 v)) k) /\
    nth_error (depth_fixups c') (length (label_stack c) - 1) = Some [].
Proof.
  intros Hne Hls Hb Hd Hend Hoff.
  assert (Hn : (length (label_stack c) <> 0)%nat) by (destruct (label_stack c); cbn; congruence).
  set (l := nth (length (label_stack c) - 1) (depth_fixups c) []) in *.
  set (i := Z.of_nat (length (label_stack c)) - 1).
  set (fx0 := if Z.of_nat (length (depth_fixups c)) <=? i
              then depth_fixups c ++ repeat [] (Z.to_nat (i + 1) - length (depth_fixups c))
              else depth_fixups c).
  assert (Hl : nth_error fx0 (length (label_stack c) - 1) = Some l).
  { unfold fx0. destruct (Z.leb_spec (Z.of_nat (length (depth_fixups c))) i) as [G|G].
    - rewrite nth_error_app2 by lia. rewrite nth_error_repeat by lia.
      unfold l. rewrite nth_overflow by lia. reflexivity.
    - apply nth_error_nth'. lia. }
  set (fx1 := update_nth (length (label_stack c) - 1) (fun g => g ++ [istream_offset c]) fx0).
  assert (A : append_fixup i c = Some (WASM_OK, set_depth_fixups fx1 c)).
  { unfold append_fixup, bind, get, modify, ret.
    unfold fx1, fx0. replace (Z.to_nat i) with (length (label_stack c) - 1)%nat by lia.
    reflexivity. }
  set (d := le_bytes 4 (u32 WASM_INVALID_OFFSET)).
  assert (Ld : length d = 4%nat) by apply le_bytes_length.
  set (c1 := set_depth_fixups fx1 c).
  assert (E1 : istream_at_end c1) by exact Hend.
  assert (E : emit_br_offset i WASM_INVALID_OFFSET c = Some (WASM_OK, emitted c1 d)).
  { unfold emit_br_offset. rewrite Z.eqb_refl.
    rewrite (bind_some _ _ _ _ _ A). cbv beta iota. unfold emit_i32.
    rewrite (bind_some _ _ _ _ _ (emit_data_ok c1 d E1
               ltac:(rewrite Ld; change (istream_offset c1) with (istream_offset c); lia))).
    reflexivity. }
  rewrite (bind_some _ _ _ _ _ E).
  set (c2 := emitted c1 d).
  assert (Ne2 : label_stack c2 <> []) by exact Hne.
  assert (B2 : length (istream_buf c2) = (length (istream_buf c) + 4)%nat)
    by (unfold c2; rewrite emitted_buf, length_app, Ld; reflexivity).
  assert (F2 : nth_error (depth_fixups c2) (length (label_stack c2) - 1) =
               Some (l ++ [istream_offset c])).
  { change (depth_fixups c2) with fx1. change (label_stack c2) with (label_stack c).
    unfold fx1. rewrite nth_error_update_nth, Nat.eqb_refl, Hl. reflexivity. }
  unfold istream_at_end in Hend.
  destruct (fixup_top_label_ok c2 v (l ++ [istream_offset c]) Ne2 Hls F2)
    as (c' & Ec & Lc & Oc & Fc & Sc & _).
  - apply Forall_app. split.
    + rewrite Forall_forall in Hb |- *. intros f Hf. specialize (Hb f Hf). rewrite B2. lia.
    + constructor; [|constructor]. rewrite B2. lia.
  - apply ForallOrdPairs_app_last; [exact Hd|].
    rewrite Forall_forall in Hb |- *. intros f Hf. specialize (Hb f Hf).
    unfold slot_disjoint. lia.
  - exists c'. split; [exact Ec|]. split; [rewrite Lc; exact B2|].
    split; [rewrite Oc; unfold c2; rewrite emitted_offset, Ld; reflexivity|].
    split; [|exact Fc].
    apply Forall_app in Sc as [_ Sc]. inversion Sc as [|? ? Sk _]; subst. exact Sk.
Qed.

Ltac no_any := cbn; intuition discriminate.

Lemma check_n_types_spec_witness :
  check_n_types [WASM_TYPE_I32] "br" ctx_any = Some (WASM_OK, ctx_any) /\
  exists r c', check_n_types [WASM_TYPE_I32] "br" ctx_branch = Some (r, c') /\
    (r = WASM_OK -> c' = ctx_branch) /\
    (r = WASM_ERROR -> exists msg, c' = set_errors (errors ctx_branch ++ [msg]) ctx_branch) /\
    (r = WASM_OK <->
       Z.of_nat (length [WASM_TYPE_I32]) <= Z.of_nat (length (type_stack ctx_branch)) - type_stack_limit block_label /\
       skipn (length (type_stack ctx_branch) - length [WASM_TYPE_I32]) (type_stack ctx_branch) = rev [WASM_TYPE_I32]).
Proof.
  split.
  - exact (proj1 (check_n_types_spec [WASM_TYPE_I32] "br" ctx_any) ltac:(concrete)).
  - exact (proj2 (check_n_types_spec [WASM_TYPE_I32] "br" ctx_branch) block_label
             ltac:(concrete) ltac:(concrete) ltac:(concrete) ltac:(concrete)).
Defined.

Lemma push_types_then_check_n_types_witness :
  (push_types [WASM_TYPE_I32; WASM_TYPE_F32] ;;
   check_n_types [WASM_TYPE_I32; WASM_TYPE_F32] "block") ctx_any = Some (WASM_OK, ctx_any) /\
  exists r c', (push_types [WASM_TYPE_I32; WASM_TYPE_F32] ;;
                check_n_types [WASM_TYPE_I32; WASM_TYPE_F32] "block") ctx_branch = Some (r, c') /\
    (r = WASM_OK <-> rev [WASM_TYPE_I32; WASM_TYPE_F32] = [WASM_TYPE_I32; WASM_TYPE_F32]).
Proof.
  split.
  - exact (proj1 (push_types_then_check_n_types [WASM_TYPE_I32; WASM_TYPE_F32] "block" ctx_any)
             ltac:(concrete)).
  - exact (proj2 (push_types_then_check_n_types [WASM_TYPE_I32; WASM_TYPE_F32] "block" ctx_branch)
             block_label ltac:(concrete) ltac:(concrete) ltac:(concrete) ltac:(concrete)
             ltac:(repeat constructor; discriminate)).
Defined.

Lemma pop_label_spec_witness :
  (label_stack ctx_branch = [] -> pop_label ctx_branch = None) /\
  (label_stack ctx_branch <> [] -> Z.of_nat (length (label_stack ctx_branch)) <= 2 ^ 32 ->
   pop_label ctx_branch = Some (tt, set_depth_fixups
                             (firstn (length (label_stack ctx_branch) - 1) (depth_fixups ctx_branch))
                             (set_label_stack (removelast (label_stack ctx_branch)) ctx_branch))).
Proof. exact (pop_label_spec ctx_branch). Defined.

Lemma push_label_pop_label_witness :
  (push_label LABEL_TYPE_LOOP [] 0 WASM_INVALID_OFFSET ;; pop_label) ctx_branch =
    Some (tt, set_depth_fixups (firstn (length (label_stack ctx_branch)) (depth_fixups ctx_branch)) ctx_branch).
Proof. exact (push_label_pop_label LABEL_TYPE_LOOP [] 0 WASM_INVALID_OFFSET ctx_branch ltac:(concrete)). Defined.

Lemma translate_depth_get_label_witness :
  (0 < Z.of_nat (length (label_stack ctx_branch)) ->
   exists l, nth_error (rev (label_stack ctx_branch)) (Z.to_nat 0) = Some l /\
     (i <- translate_depth 0 ;; get_label i) ctx_branch = Some (l, ctx_branch)) /\
  (Z.of_nat (length (label_stack ctx_branch)) <= 0 ->
   (i <- translate_depth 0 ;; get_label i) ctx_branch = None).
Proof. exact (translate_depth_get_label 0 ctx_branch ltac:(concrete) ltac:(concrete)). Defined.

Lemma fixup_top_label_patches_witness :
  exists c', fixup_top_label 9 ctx_fixup = Some (WASM_OK, c') /\
    length (istream_buf c') = length (istream_buf ctx_fixup) /\
    istream_offset c' = istream_offset ctx_fixup /\
    nth_error (depth_fixups c') (length (label_stack ctx_fixup) - 1) = Some [] /\
    Forall (fun f => forall k, (k < 4)%nat ->
      nth_error (istream_buf c') (Z.to_nat f + k) = nth_error (le_bytes 4 (u32 9)) k) [1] /\
    (forall p, Forall (fun f => (p < Z.to_nat f \/ Z.to_nat f + 4 <= p)%nat) [1] ->
       nth_error (istream_buf c') p = nth_error (istream_buf ctx_fixup) p).
Proof.
  exact (fixup_top_label_patches ctx_fixup 9 [1] ltac:(concrete) ltac:(concrete)
           ltac:(concrete) ltac:(constructor; [cbn; lia | constructor]) ltac:(repeat constructor)).
Defined.

Lemma drop_types_for_return_spec_witness :
  drop_types_for_return 1 ctx_any = Some (WASM_OK, ctx_any) /\
  (1 <= Z.of_nat (length (type_stack ctx_branch)) ->
     drop_types_for_return 1 ctx_branch =
       Some (WASM_OK, emitted ctx_branch (drop_keep_bytes (Z.of_nat (length (type_stack ctx_branch)) - 1) 1))) /\
  (Z.of_nat (length (type_stack ctx_branch)) < 1 ->
     (type_stack ctx_branch = [] -> drop_types_for_return 1 ctx_branch = Some (WASM_OK, ctx_branch)) /\
     (type_stack ctx_branch <> [] -> drop_types_for_return 1 ctx_branch = None)).
Proof.
  split.
  - exact (proj1 (drop_types_for_return_spec 1 ctx_any) ltac:(concrete)).
  - exact (proj2 (drop_types_for_return_spec 1 ctx_branch) ltac:(concrete) ltac:(concrete)
             ltac:(concrete) ltac:(concrete) ltac:(concrete)).
Defined.

Lemma on_drop_expr_spec_witness :
  (type_stack_limit block_label < Z.of_nat (length (type_stack ctx_branch)) ->
   on_drop_expr ctx_branch = Some (WASM_OK, set_type_stack (removelast (type_stack ctx_branch))
                                      (emitted ctx_branch [opcode_value WASM_OPCODE_DROP]))) /\
  (type_stack_limit block_label = Z.of_nat (length (type_stack ctx_branch)) ->
   on_drop_expr ctx_branch = Some (WASM_ERROR, set_errors (errors ctx_branch ++
                            [String.append "type stack size too small at " "drop"]) ctx_branch)) /\
  on_drop_expr ctx_any = Some (WASM_OK, emitted ctx_any [opcode_value WASM_OPCODE_DROP]) /\
  on_drop_expr ctx_any_block = None.
Proof.
  split; [|split; [|split]].
  - exact (proj1 (proj1 (on_drop_expr_spec ctx_branch block_label ltac:(concrete) ltac:(concrete)
             ltac:(concrete) ltac:(concrete) ltac:(concrete)) ltac:(concrete))).
  - exact (proj2 (proj1 (on_drop_expr_spec ctx_branch block_label ltac:(concrete) ltac:(concrete)
             ltac:(concrete) ltac:(concrete) ltac:(concrete)) ltac:(concrete))).
  - exact (proj1 (proj2 (on_drop_expr_spec ctx_any block_label ltac:(concrete) ltac:(concrete)
             ltac:(concrete) ltac:(concrete) ltac:(concrete)) ltac:(concrete)) ltac:(concrete)).
  - exact (proj2 (proj2 (on_drop_expr_spec ctx_any_block inner_label ltac:(concrete)
             ltac:(concrete) ltac:(concrete) ltac:(concrete) ltac:(concrete)) ltac:(concrete))
             ltac:(concrete)).
Defined.

Lemma check_align_pow_witness :
  check_align 3 (2 ^ 2) ctx_branch =
    if 3 <=? 2 then Some (WASM_OK, ctx_branch)
    else Some (WASM_ERROR, set_errors (errors ctx_branch ++
                 ["alignment must not be larger than natural alignment"%string]) ctx_branch).
Proof. exact (check_align_pow 3 2 ctx_branch ltac:(lia) ltac:(lia)). Defined.

Lemma pop_and_check_2_types_spec_witness :
  pop_and_check_2_types WASM_TYPE_I32 WASM_TYPE_I32 "i32.add" ctx_any = Some (WASM_OK, ctx_any) /\
  (Z.of_nat (length (type_stack ctx_branch)) - type_stack_limit block_label < 2 ->
   pop_and_check_2_types WASM_TYPE_I32 WASM_TYPE_I32 "i32.add" ctx_branch =
     Some (WASM_ERROR, set_errors (errors ctx_branch ++
             [String.append "type stack size too small at " "i32.add"]) ctx_branch)) /\
  (forall pre a1 a2, type_stack ctx_branch = pre ++ [a1; a2] ->
   type_stack_limit block_label <= Z.of_nat (length pre) ->
   exists r errs, pop_and_check_2_types WASM_TYPE_I32 WASM_TYPE_I32 "i32.add" ctx_branch =
       Some (r, set_errors errs (set_type_stack pre ctx_branch)) /\
     (r = WASM_OK <-> WASM_TYPE_I32 = a1 /\ WASM_TYPE_I32 = a2)).
Proof.
  split.
  - exact (proj1 (pop_and_check_2_types_spec WASM_TYPE_I32 WASM_TYPE_I32 "i32.add" ctx_any)
             ltac:(concrete)).
  - exact (proj2 (pop_and_check_2_types_spec WASM_TYPE_I32 WASM_TYPE_I32 "i32.add" ctx_branch)
             block_label ltac:(no_any) ltac:(concrete) ltac:(concrete) ltac:(concrete)).
Defined.

Lemma on_end_expr_block_loop_witness :
  (exists c', on_end_expr ctx_any = Some (WASM_OK, c') /\
     label_stack c' = [] /\ type_stack c' = [WASM_TYPE_I32]) /\
  (exists c', on_end_expr ctx_branch = Some (WASM_ERROR, c') /\
     exists msg, c' = set_errors (errors ctx_branch ++ [msg]) ctx_branch).
Proof.
  split.
  - destruct (on_end_expr_block_loop ctx_any block_label ltac:(concrete) (or_introl eq_refl)
                ltac:(concrete) ltac:(repeat constructor; discriminate) ltac:(concrete)
                ltac:(concrete)) as (r & c' & E & I & K & _).
    assert (R : r = WASM_OK) by (apply I; left; reflexivity). subst r.
    destruct (K eq_refl) as (L & T & _).
    exists c'. split; [exact E|]. split; [rewrite L; reflexivity|rewrite T; reflexivity].
  - destruct (on_end_expr_block_loop ctx_branch block_label ltac:(concrete) (or_introl eq_refl)
                ltac:(concrete) ltac:(repeat constructor; discriminate) ltac:(concrete)
                ltac:(concrete)) as (r & c' & E & I & _ & K).
    destruct r.
    + exfalso. destruct (proj1 I eq_refl) as [A|[A _]]; vm_compute in A; discriminate.
    + exists c'. split; [exact E|exact (K eq_refl)].
Defined.

Lemma on_if_expr_spec_witness :
  on_if_expr [] ctx_branch =
    Some (WASM_OK,
          set_label_stack (label_stack ctx_branch ++
            [if_label [] (Z.of_nat (length (type_stack ctx_branch)) - 1) (istream_offset ctx_branch + 1)])
          (set_type_stack (removelast (type_stack ctx_branch))
            (emitted ctx_branch ([opcode_value WASM_OPCODE_BR_UNLESS] ++ le_bytes 4 UINT32_MAX)))).
Proof.
  exact (on_if_expr_spec [] ctx_branch block_label ltac:(no_any) ltac:(concrete)
           ltac:(concrete) ltac:(concrete) ltac:(concrete) ltac:(concrete) ltac:(concrete)).
Defined.

Lemma if_end_patches_br_unless_witness :
  (on_if_expr [] ;; on_end_expr) ctx_branch =
    Some (WASM_OK,
          set_type_stack
            (if top_type_is_any ctx_branch then type_stack ctx_branch
             else removelast (type_stack ctx_branch))
            (emitted ctx_branch ([opcode_value WASM_OPCODE_BR_UNLESS] ++
                                 le_bytes 4 (istream_offset ctx_branch + 5)))) /\
  (on_if_expr [] ;; on_end_expr) ctx_any =
    Some (WASM_OK,
          set_type_stack
            (if top_type_is_any ctx_any then type_stack ctx_any
             else removelast (type_stack ctx_any))
            (emitted ctx_any ([opcode_value WASM_OPCODE_BR_UNLESS] ++
                              le_bytes 4 (istream_offset ctx_any + 5)))).
Proof.
  split.
  - assert (H1 : top_label ctx_branch = Some (block_label, ctx_branch)) by concrete.
    assert (H2 : 0 <= type_stack_limit block_label <= Z.of_nat (length (type_stack ctx_branch)))
      by concrete.
    assert (H3 : Z.of_nat (length (type_stack ctx_branch)) < 2 ^ 32) by concrete.
    assert (H4 : type_stack_limit block_label < Z.of_nat (length (type_stack ctx_branch)))
      by concrete.
    assert (H5 : last (type_stack ctx_branch) WASM_TYPE_VOID = WASM_TYPE_I32) by concrete.
    assert (H6 : Z.of_nat (length (label_stack ctx_branch)) + 1 <= 2 ^ 32) by concrete.
    assert (H7 : (length (depth_fixups ctx_branch) <= length (label_stack ctx_branch))%nat)
      by concrete.
    assert (H8 : istream_at_end ctx_branch) by concrete.
    assert (H9 : istream_offset ctx_branch + 5 < 2 ^ 32) by concrete.
    exact (if_end_patches_br_unless ctx_branch block_label H1 H2 H3 (or_intror (conj H4 H5))
             H6 H7 H8 H9).
  - assert (H1 : top_label ctx_any = Some (block_label, ctx_any)) by concrete.
    assert (H2 : 0 <= type_stack_limit block_label <= Z.of_nat (length (type_stack ctx_any)))
      by concrete.
    assert (H3 : Z.of_nat (length (type_stack ctx_any)) < 2 ^ 32) by concrete.
    assert (H4 : top_type_is_any ctx_any = true) by concrete.
    assert (H6 : Z.of_nat (length (label_stack ctx_any)) + 1 <= 2 ^ 32) by concrete.
    assert (H7 : (length (depth_fixups ctx_any) <= length (label_stack ctx_any))%nat)
      by concrete.
    assert (H8 : istream_at_end ctx_any) by concrete.
    assert (H9 : istream_offset ctx_any + 5 < 2 ^ 32) by concrete.
    exact (if_end_patches_br_unless ctx_any block_label H1 H2 H3 (or_introl H4) H6 H7 H8 H9).
Defined.

Lemma on_br_if_expr_stack_witness :
  (exists c', on_br_if_expr 0 ctx_branch = Some (WASM_OK, c') /\
     type_stack c' = removelast (type_stack ctx_branch) /\ label_stack c' = label_stack ctx_branch) /\
  (exists c', on_br_if_expr 0 ctx_any = Some (WASM_OK, c') /\
     type_stack c' = type_stack ctx_any /\ label_stack c' = label_stack ctx_any).
Proof.
  split.
  - pose (c' := match on_br_if_expr 0 ctx_branch with Some (_, c') => c' | None => ctx_branch end).
    assert (E : on_br_if_expr 0 ctx_branch = Some (WASM_OK, c')) by (vm_compute; reflexivity).
    exists c'. split; [exact E|].
    exact (on_br_if_expr_stack 0 ctx_branch c' E).
  - pose (c' := match on_br_if_expr 0 ctx_any with Some (_, c') => c' | None => ctx_any end).
    assert (E : on_br_if_expr 0 ctx_any = Some (WASM_OK, c')) by (vm_compute; reflexivity).
    exists c'. split; [exact E|].
    exact (on_br_if_expr_stack 0 ctx_any c' E).
Defined.

Lemma on_br_expr_stack_witness :
  (exists c', on_br_expr 0 ctx_branch = Some (WASM_OK, c') /\
     type_stack c' = [WASM_TYPE_ANY] /\ label_stack c' = label_stack ctx_branch) /\
  (exists c', on_br_expr 0 ctx_any_block = Some (WASM_OK, c') /\
     type_stack c' = [WASM_TYPE_ANY] /\ label_stack c' = label_stack ctx_any_block).
Proof.
  split.
  - pose (c' := match on_br_expr 0 ctx_branch with Some (_, c') => c' | None => ctx_branch end).
    assert (E : on_br_expr 0 ctx_branch = Some (WASM_OK, c')) by (vm_compute; reflexivity).
    exists c'. split; [exact E|].
    exact (on_br_expr_stack 0 ctx_branch c' block_label ltac:(concrete) E).
  - pose (c' := match on_br_expr 0 ctx_any_block with Some (_, c') => c' | None => ctx_any_block end).
    assert (E : on_br_expr 0 ctx_any_block = Some (WASM_OK, c')) by (vm_compute; reflexivity).
    exists c'. split; [exact E|].
    exact (on_br_expr_stack 0 ctx_any_block c' inner_label ltac:(concrete) E).
Defined.

Lemma br_invalid_depth_witness :
  on_br_expr 1 ctx_branch = Some (WASM_ERROR, set_errors (errors ctx_branch ++ ["invalid depth"%string]) ctx_branch) /\
  on_br_if_expr 1 ctx_branch = Some (WASM_ERROR, set_errors (errors ctx_branch ++ ["invalid depth"%string]) ctx_branch).
Proof. exact (br_invalid_depth 1 ctx_branch ltac:(concrete)). Defined.

Lemma unexpected_else_end_witness :
  (label_type block_label <> LABEL_TYPE_IF ->
   on_else_expr ctx_branch = Some (WASM_ERROR, set_errors (errors ctx_branch ++ ["unexpected else operator"%string]) ctx_branch)) /\
  (label_type block_label = LABEL_TYPE_FUNC ->
   on_end_expr ctx_branch = Some (WASM_ERROR, set_errors (errors ctx_branch ++ ["unexpected end operator"%string]) ctx_branch)).
Proof. exact (unexpected_else_end ctx_branch block_label ltac:(concrete)). Defined.

Lemma block_end_roundtrip_witness :
  ((on_block_expr [] ;; on_end_expr) ctx_branch = Some (WASM_OK, ctx_branch) /\
   (on_loop_expr [] ;; on_end_expr) ctx_branch = Some (WASM_OK, ctx_branch)) /\
  ((on_block_expr [] ;; on_end_expr) ctx_any = Some (WASM_OK, ctx_any) /\
   (on_loop_expr [] ;; on_end_expr) ctx_any = Some (WASM_OK, ctx_any)).
Proof.
  split.
  - exact (block_end_roundtrip ctx_branch ltac:(concrete) ltac:(concrete) ltac:(concrete)).
  - exact (block_end_roundtrip ctx_any ltac:(concrete) ltac:(concrete) ltac:(concrete)).
Defined.

Lemma br_fixup_roundtrip_witness :
  (exists c', (emit_br_offset (Z.of_nat (length (label_stack ctx_fixup)) - 1) WASM_INVALID_OFFSET ;;
               fixup_top_label 9) ctx_fixup = Some (WASM_OK, c') /\
     length (istream_buf c') = (length (istream_buf ctx_fixup) + 4)%nat /\
     istream_offset c' = istream_offset ctx_fixup + 4 /\
     (forall k, (k < 4)%nat ->
        nth_error (istream_buf c') (Z.to_nat (istream_offset ctx_fixup) + k) =
        nth_error (le_bytes 4 (u32 9)) k) /\
     nth_error (depth_fixups c') (length (label_stack ctx_fixup) - 1) = Some []) /\
  (exists c', (emit_br_offset (Z.of_nat (length (label_stack ctx_branch)) - 1) WASM_INVALID_OFFSET ;;
               fixup_top_label 9) ctx_branch = Some (WASM_OK, c') /\
     length (istream_buf c') = (length (istream_buf ctx_branch) + 4)%nat /\
     istream_offset c' = istream_offset ctx_branch + 4 /\
     (forall k, (k < 4)%nat ->
        nth_error (istream_buf c') (Z.to_nat (istream_offset ctx_branch) + k) =
        nth_error (le_bytes 4 (u32 9)) k) /\
     nth_error (depth_fixups c') (length (label_stack ctx_branch) - 1) = Some []).
Proof.
  split.
  - exact (br_fixup_roundtrip ctx_fixup 9 ltac:(concrete) ltac:(concrete)
             ltac:(cbn; constructor; [cbn; lia | constructor]) ltac:(cbn; repeat constructor)
             ltac:(concrete) ltac:(concrete)).
  - exact (br_fixup_roundtrip ctx_branch 9 ltac:(concrete) ltac:(concrete)
             ltac:(cbn; constructor) ltac:(cbn; constructor)
             ltac:(concrete) ltac:(concrete)).
Defined.
